(** * Pinboard Opener: the browser-action extension's event page

    A shallow embedding of [src/eventPage.ts] and of the second revision of
    the same page that the repository carries ([markBookmarksRead] with an
    [else] branch), followed by the properties of the sync check, the unread
    filter, the badge, the mark-read batch and the click handler.

    Modelling choices, all read off the source:
    - a [Bookmark] object lives in a JavaScript heap and is named by a
      reference; an array of bookmarks is a list of references, so that
      [filter] and [slice] share objects with their input and
      [JSON.parse(JSON.stringify(_))] allocates new ones;
    - [chrome.storage.local] keeps serialised values, not references: the two
      keys are [option]s ([None] is a key that was never written), and every
      [set] call is appended to a log;
    - the remote service is a record of answers; a [fetch] that rejects is
      [None];
    - callbacks and un-awaited promises are run to completion where they are
      started (the modelled runs have no second writer), and
      [chrome.runtime.lastError] is never set. *)

From stdpp Require Import base option list strings.
From Stdlib Require Import DecimalString DecimalNat.

Local Open Scope string_scope.
Local Open Scope list_scope.

(** ** Data model *)

(** [type Bookmark = { href; description; toread }] *)
Record Bookmark := mkBookmark {
  href : string;
  description : string;
  toread : string
}.

#[export] Instance Bookmark_eq_dec : EqDecision Bookmark.
Proof. solve_decision. Defined.

(** [const TAB_COUNT = 10] *)
Definition TAB_COUNT : nat := 10.

(** The assignment [o.toread = v]. *)
Definition set_toread (v : string) (o : Bookmark) : Bookmark :=
  {| href := href o; description := description o; toread := v |}.

(** References and the heap of bookmark objects. A reference is the position
    of its object in the heap; allocation appends. *)
Abbreviation ref := nat (only parsing).
Abbreviation Heap := (list Bookmark) (only parsing).

(** What a promise can be rejected with. *)
Inductive Error :=
  | TypeError                               (* a property read or a call on [undefined] *)
  | FetchError                              (* [fetch] or [json()] rejected *)
  | BatchError (responses : list string)    (* [new Error(JSON.stringify(responses))] *)
  | NoReason.                               (* [reject()] with no argument *)

#[export] Instance Error_eq_dec : EqDecision Error.
Proof. solve_decision. Defined.

(** The state of a promise seen by whoever awaits it. [Pending] is a promise
    that is never settled. *)
Inductive Completion (A : Type) :=
  | Fulfilled (a : A)
  | Rejected (e : Error)
  | Pending.
Arguments Fulfilled {A} a.
Arguments Rejected {A} e.
Arguments Pending {A}.

(** The requests the page sends. The query string is kept as its parameters. *)
Inductive Request :=
  | PostsUpdate                              (* /v1/posts/update *)
  | PostsAll                                 (* /v1/posts/all *)
  | PostsAdd (url descr toread_ : string).   (* /v1/posts/add?url=..&description=..&toread=.. *)

#[export] Instance Request_eq_dec : EqDecision Request.
Proof. solve_decision. Defined.

(** The remote service: what each endpoint answers. [posts_add k q] is the
    [result_code] of the answer to the [k]-th request [q] of a batch. *)
Record Remote := mkRemote {
  posts_update : option string;
  posts_all : option (list Bookmark);
  posts_add : nat -> Request -> option string
}.

(** One [chrome.storage.local.set] call. *)
Inductive StorageSet :=
  | SetPinboard (bookmarks : list Bookmark)
  | SetPinboardUpdated (time : string).

#[export] Instance StorageSet_eq_dec : EqDecision StorageSet.
Proof. solve_decision. Defined.

(** [chrome.tabs.create({ url, active })] *)
Record Tab := mkTab { url : string; active : bool }.

#[export] Instance Tab_eq_dec : EqDecision Tab.
Proof. solve_decision. Defined.

(** Everything the page can read or change. *)
Record World := mkWorld {
  heap : Heap;
  pinboard : option (list Bookmark);     (* storage key "pinboard" *)
  pinboardUpdated : option string;       (* storage key "pinboardUpdated" *)
  setLog : list StorageSet;              (* the [set] calls, oldest first *)
  badgeText : option string;
  badgeColor : option string;
  tabs : list Tab;                       (* the tabs created, oldest first *)
  notifications : list string;
  fetches : list Request                 (* the requests sent, oldest first *)
}.

Definition with_heap (h : Heap) (w : World) : World :=
  mkWorld h (pinboard w) (pinboardUpdated w) (setLog w) (badgeText w)
          (badgeColor w) (tabs w) (notifications w) (fetches w).

Definition storage_set_pinboard (l : list Bookmark) (w : World) : World :=
  mkWorld (heap w) (Some l) (pinboardUpdated w) (setLog w ++ [SetPinboard l])
          (badgeText w) (badgeColor w) (tabs w) (notifications w) (fetches w).

Definition storage_set_pinboardUpdated (t : string) (w : World) : World :=
  mkWorld (heap w) (pinboard w) (Some t) (setLog w ++ [SetPinboardUpdated t])
          (badgeText w) (badgeColor w) (tabs w) (notifications w) (fetches w).

Definition setBadgeText (t : string) (w : World) : World :=
  mkWorld (heap w) (pinboard w) (pinboardUpdated w) (setLog w) (Some t)
          (badgeColor w) (tabs w) (notifications w) (fetches w).

Definition setBadgeBackgroundColor (c : string) (w : World) : World :=
  mkWorld (heap w) (pinboard w) (pinboardUpdated w) (setLog w) (badgeText w)
          (Some c) (tabs w) (notifications w) (fetches w).

Definition tabs_create (ts : list Tab) (w : World) : World :=
  mkWorld (heap w) (pinboard w) (pinboardUpdated w) (setLog w) (badgeText w)
          (badgeColor w) (tabs w ++ ts) (notifications w) (fetches w).

(** [sendNotification(message)] *)
Definition sendNotification (message : string) (w : World) : World :=
  mkWorld (heap w) (pinboard w) (pinboardUpdated w) (setLog w) (badgeText w)
          (badgeColor w) (tabs w) (notifications w ++ [message]) (fetches w).

Definition fetch (qs : list Request) (w : World) : World :=
  mkWorld (heap w) (pinboard w) (pinboardUpdated w) (setLog w) (badgeText w)
          (badgeColor w) (tabs w) (notifications w) (fetches w ++ qs).

(** ** Heap operations *)

(** The objects an array holds, in order: what [JSON.stringify] and
    [storage.set] serialise. A reference that is not allocated is skipped; no
    array of the page holds one (see [allocated]). *)
Definition values (h : Heap) (a : list ref) : list Bookmark :=
  omap (fun r => h !! r) a.

(** Allocation of new objects: what [JSON.parse] and [storage.get] hand out. *)
Definition alloc (vs : list Bookmark) (h : Heap) : Heap * list ref :=
  (h ++ vs, seq (length h) (length vs)).

(** [JSON.parse(JSON.stringify(a))] *)
Definition JSON_clone (h : Heap) (a : list ref) : Heap * list ref :=
  alloc (values h a) h.

(** [String(n)] for an array length. *)
Definition String_of_number (n : nat) : string :=
  NilZero.string_of_uint (Nat.to_uint n).

(** [Array.prototype.findIndex]; [None] is the result [-1]. *)
Definition findIndex {A} (P : A -> Prop) `{forall x, Decision (P x)}
    (l : list A) : option nat :=
  fst <$> list_find P l.

(** The test [item => item.toread === "yes"] on a reference to an object. *)
Definition is_unread (h : Heap) (r : ref) : Prop :=
  toread <$> h !! r = Some "yes".

#[export] Instance is_unread_dec h r : Decision (is_unread h r).
Proof. unfold is_unread. apply _. Defined.

(** [function filterUnread(bookmarks) { return bookmarks.filter(item => item.toread === "yes"); }] *)
Definition filterUnread (h : Heap) (bookmarks : list ref) : list ref :=
  filter (is_unread h) bookmarks.

(** The same test on a stored value. *)
Definition unread (b : Bookmark) : Prop := toread b = "yes".

#[export] Instance unread_dec b : Decision (unread b).
Proof. unfold unread. apply _. Defined.

(** ** Asynchronous functions

    An [async] function, or one that returns [new Promise(..)], is a function
    from the world to the world it leaves and the state of its promise. *)
Definition Async (A : Type) : Type := World -> World * Completion A.

Definition resolved {A} (a : A) : Async A := fun w => (w, Fulfilled a).

(** [const x = await m; k x]: the continuation runs only once [m] is
    fulfilled; a rejection is passed on, and a promise that never settles
    stops the caller for good. *)
Definition await {A B} (m : Async A) (k : A -> Async B) : Async B :=
  fun w =>
    match m w with
    | (w', Fulfilled a) => k a w'
    | (w', Rejected e) => (w', Rejected e)
    | (w', Pending) => (w', Pending)
    end.

Notation "x <- m ;; k" := (await m (fun x => k))
  (at level 100, m at next level, right associativity).

(** A promise settles once: a later [resolve] or [reject] is ignored. *)
Definition settle {A} (next : Completion A) (now : Completion A) : Completion A :=
  match now with
  | Pending => next
  | _ => now
  end.

(** ** The mark-read loop, common to both revisions

    [readBookmarks.map(bookmark => {
       const index = copy.findIndex(item => item.description === bookmark.description);
       copy[index].toread = "no";
     })] *)

(** The request of one bookmark; [None] when the bookmark is not an object. *)
Definition request_of (h : Heap) (bookmark : ref) : option Request :=
  b ← h !! bookmark; Some (PostsAdd (href b) (description b) "no").

(** One round of the loop. [None] is the TypeError of an assignment to a
    property of [undefined], which is what [copy[-1]] is. *)
Definition markOneRead (copy : list ref) (h : Heap) (bookmark : ref) : option Heap :=
  b ← h !! bookmark;
  index ← findIndex (fun item => description <$> h !! item = Some (description b)) copy;
  target ← copy !! index;
  o ← h !! target;
  Some (<[target := set_toread "no" o]> h).

(** The whole loop: the heap it leaves, and whether it ran to its end. *)
Fixpoint markAllRead (copy readBookmarks : list ref) (h : Heap) : Heap * bool :=
  match readBookmarks with
  | [] => (h, true)
  | bookmark :: rest =>
      match markOneRead copy h bookmark with
      | None => (h, false)
      | Some h' => markAllRead copy rest h'
      end
  end.

(** [response.result_code !== "done"] *)
Definition failed_code (result_code : string) : Prop := result_code <> "done".

#[export] Instance failed_code_dec c : Decision (failed_code c).
Proof. unfold failed_code. apply _. Defined.

(** The batch of answers [Promise.all] waits for: [None] when one of the
    requests rejects. *)
Definition all_responses (R : Remote) (requests : list Request) : option (list string) :=
  mapM id (imap (posts_add R) requests).

(** ** src/eventPage.ts *)
Module EventPage.

(** [getLocalBookmarks]: resolves with [localData.pinboard], a new copy of
    what is stored, or [undefined]. *)
Definition getLocalBookmarks : Async (option (list ref)) :=
  fun w =>
    match pinboard w with
    | None => (w, Fulfilled None)
    | Some l =>
        let '(h, a) := alloc l (heap w) in
        (with_heap h w, Fulfilled (Some a))
    end.

(** [getOldUpdatedTime] *)
Definition getOldUpdatedTime : Async (option string) :=
  fun w => (w, Fulfilled (pinboardUpdated w)).

(** [setOldUpdatedTime] *)
Definition setOldUpdatedTime (time : string) (w : World) : World :=
  storage_set_pinboardUpdated time w.

(** [getNewUpdatedTime] *)
Definition getNewUpdatedTime (R : Remote) : Async string :=
  fun w =>
    let w1 := fetch [PostsUpdate] w in
    match posts_update R with
    | Some update_time => (w1, Fulfilled update_time)
    | None => (w1, Rejected FetchError)
    end.

(** [updateBadgeCount]. [bookmarks.filter] on [undefined] is a TypeError;
    [String("")] is [""]. *)
Definition updateBadgeCount : Async unit :=
  bookmarks <- getLocalBookmarks ;;
  fun w =>
    match bookmarks with
    | None => (w, Rejected TypeError)
    | Some bookmarks =>
        let count := length (filterUnread (heap w) bookmarks) in
        let w1 := setBadgeText (if decide (0 < count) then String_of_number count else "") w in
        (setBadgeBackgroundColor "#000" w1, Fulfilled tt)
    end.

(** [setLocalBookmarks]: the callback of [set] starts [updateBadgeCount]
    (whose promise nobody looks at) and resolves. *)
Definition setLocalBookmarks (bookmarks : list ref) : Async unit :=
  fun w =>
    let w1 := storage_set_pinboard (values (heap w) bookmarks) w in
    ((updateBadgeCount w1).1, Fulfilled tt).

(** [shouldFetchNew] *)
Definition shouldFetchNew (R : Remote) : Async bool :=
  oldUpdated <- getOldUpdatedTime ;;
  newUpdated <- getNewUpdatedTime R ;;
  if decide (oldUpdated <> Some newUpdated)
  then fun w => (setOldUpdatedTime newUpdated w, Fulfilled true)
  else resolved false.

(** [fetchNew]: the executor passes [reject] to [catch] and never calls
    [resolve], so the promise stays pending after a stored answer. *)
Definition fetchNew (R : Remote) : Async unit :=
  fun w =>
    let w1 := fetch [PostsAll] w in
    match posts_all R with
    | None => (w1, Rejected FetchError)
    | Some data =>
        let '(h, a) := alloc data (heap w1) in
        ((setLocalBookmarks a (with_heap h w1)).1, Pending)
    end.

(** [updateData] *)
Definition updateData (R : Remote) : Async unit :=
  shouldFetch <- shouldFetchNew R ;;
  if (shouldFetch : bool) then fetchNew R else resolved tt.

(** [markBookmarksRead]. The requests are built and sent before the promise
    is made; reading [bookmark.href] of something that is not an object throws
    there, which the [async] caller sees as a rejection. After
    [reject(new Error(..))] the callback goes on: it clones, marks, stores and
    calls [resolve], which a rejected promise ignores. An exception in the
    callback reaches [catch(error => reject(error))]. *)
Definition markBookmarksRead (R : Remote) (bookmarks readBookmarks : list ref) : Async unit :=
  fun w =>
    match mapM (request_of (heap w)) readBookmarks with
    | None => (w, Rejected TypeError)
    | Some requests =>
        let w1 := fetch requests w in
        match all_responses R requests with
        | None => (w1, Rejected FetchError)
        | Some responses =>
            let p :=
              if decide (length (filter failed_code responses) = 0)
              then Pending
              else Rejected (BatchError responses) in
            let '(h1, bookmarksCopy) := JSON_clone (heap w1) bookmarks in
            match markAllRead bookmarksCopy readBookmarks h1 with
            | (h2, false) => (with_heap h2 w1, settle (Rejected TypeError) p)
            | (h2, true) =>
                let w2 := (setLocalBookmarks bookmarksCopy (with_heap h2 w1)).1 in
                (w2, settle (Fulfilled tt) p)
            end
        end
    end.

(** [handleClick] *)
Definition handleClick (R : Remote) : Async unit :=
  _ <- updateData R ;;
  bookmarks <- getLocalBookmarks ;;
  fun w =>
    match bookmarks with
    | None => (w, Rejected TypeError)
    | Some bookmarks =>
        let unreadBookmarks := filterUnread (heap w) bookmarks in
        if decide (length unreadBookmarks = 0)
        then (sendNotification "There aren't any unread bookmarks to open!" w, Fulfilled tt)
        else
          let truncatedUnreadBookmarks := take TAB_COUNT unreadBookmarks in
          let w1 :=
            sendNotification
              ("Opening " +:+ String_of_number (length truncatedUnreadBookmarks)
                 +:+ " tabs from pinboard.") w in
          match mapM (fun r => (fun b => mkTab (href b) false) <$> heap w1 !! r)
                     truncatedUnreadBookmarks with
          | None => (w1, Rejected TypeError)
          | Some ts => markBookmarksRead R bookmarks truncatedUnreadBookmarks (tabs_create ts w1)
          end
    end.

(** The listener [init] gives to [chrome.alarms.onAlarm]:
    [alarm => { if (alarm.name === "pinboard-opener") { updateData(); } }].
    Nobody awaits the promise of [updateData]. *)
Definition onAlarm (R : Remote) (name : string) (w : World) : World :=
  if decide (name = "pinboard-opener") then (updateData R w).1 else w.

(** [init], as far as it acts at once: the badge update. The listeners it
    installs are [handleClick] and [onAlarm]; see [dispatch]. *)
Definition init (w : World) : World := (updateBadgeCount w).1.

End EventPage.

(** ** The second revision of the page *)
Module Part000.

(** [getLocalData] *)
Definition getLocalData : Async (option (list ref)) :=
  fun w =>
    match pinboard w with
    | None => (w, Fulfilled None)
    | Some l =>
        let '(h, a) := alloc l (heap w) in
        (with_heap h w, Fulfilled (Some a))
    end.

(** [updateBadgeCount] *)
Definition updateBadgeCount : Async unit :=
  bookmarks <- getLocalData ;;
  fun w =>
    match bookmarks with
    | None => (w, Rejected TypeError)
    | Some bookmarks =>
        let count := length (filterUnread (heap w) bookmarks) in
        let w1 := setBadgeText (if decide (0 < count) then String_of_number count else "") w in
        (setBadgeBackgroundColor "#000" w1, Fulfilled tt)
    end.

(** [markBookmarksRead]. A failed code is [reject(); throw ..], and the
    update of the store is the [else] branch. The [catch] only logs, so an
    exception in the chain leaves the promise as it is. *)
Definition markBookmarksRead (R : Remote) (bookmarks readBookmarks : list ref) : Async unit :=
  fun w =>
    match mapM (request_of (heap w)) readBookmarks with
    | None => (w, Rejected TypeError)
    | Some requests =>
        let w1 := fetch requests w in
        match all_responses R requests with
        | None => (w1, Pending)
        | Some responses =>
            let failed := filter failed_code responses in
            if decide (length failed = 0)
            then
              let '(h1, clonedBookmarks) := JSON_clone (heap w1) bookmarks in
              match markAllRead clonedBookmarks readBookmarks h1 with
              | (h2, false) => (with_heap h2 w1, Pending)
              | (h2, true) =>
                  let w2 := storage_set_pinboard (values h2 clonedBookmarks) (with_heap h2 w1) in
                  ((updateBadgeCount w2).1, Fulfilled tt)
              end
            else (w1, Rejected NoReason)
        end
    end.

(** [shouldFetchNew]. After [resolve(true)] the callback goes on to
    [resolve(false)], which a settled promise ignores. *)
Definition shouldFetchNew (R : Remote) : Async bool :=
  fun w =>
    let w1 := fetch [PostsUpdate] w in
    match posts_update R with
    | None => (w1, Rejected FetchError)
    | Some update_time =>
        if decide (pinboardUpdated w <> Some update_time)
        then (storage_set_pinboardUpdated update_time w1,
              settle (Fulfilled false) (Fulfilled true))
        else (w1, settle (Fulfilled false) Pending)
    end.

(** [fetchNew]: the callback of [set] starts the badge update and resolves. *)
Definition fetchNew (R : Remote) : Async unit :=
  fun w =>
    let w1 := fetch [PostsAll] w in
    match posts_all R with
    | None => (w1, Rejected FetchError)
    | Some data =>
        let '(h, a) := alloc data (heap w1) in
        let w2 := storage_set_pinboard (values h a) (with_heap h w1) in
        ((updateBadgeCount w2).1, Fulfilled tt)
    end.

(** [handleClick]. [bookmarks.length] is read for the log before the filter;
    with no unread bookmark the handler returns without a notification. *)
Definition handleClick (R : Remote) : Async unit :=
  shouldFetch <- shouldFetchNew R ;;
  _ <- (if (shouldFetch : bool) then fetchNew R else resolved tt) ;;
  bookmarks <- getLocalData ;;
  fun w =>
    match bookmarks with
    | None => (w, Rejected TypeError)
    | Some bookmarks =>
        let unreadBookmarks := filterUnread (heap w) bookmarks in
        if decide (length unreadBookmarks = 0)
        then (w, Fulfilled tt)
        else
          let truncatedUnreadBookmarks := take TAB_COUNT unreadBookmarks in
          let w1 :=
            sendNotification
              ("Opening " +:+ String_of_number (length truncatedUnreadBookmarks)
                 +:+ " tabs from pinboard.") w in
          match mapM (fun r => (fun b => mkTab (href b) false) <$> heap w1 !! r)
                     truncatedUnreadBookmarks with
          | None => (w1, Rejected TypeError)
          | Some ts => markBookmarksRead R bookmarks truncatedUnreadBookmarks (tabs_create ts w1)
          end
    end.

(** [interval] *)
Definition interval (R : Remote) : Async unit :=
  shouldFetch <- shouldFetchNew R ;;
  if (shouldFetch : bool) then fetchNew R else resolved tt.

End Part000.

(** ** The page as the browser drives it

    [init] registers [handleClick] for the clicks on the action icon and
    [onAlarm] for the alarms. An event comes with the answers the service
    gives while its listener runs; a listener is run to its end before the
    next event, so the runs below are those in which no two listeners
    overlap. *)
Inductive Event :=
  | Clicked (R : Remote)
  | Alarm (name : string) (R : Remote).

Definition dispatch (e : Event) (w : World) : World :=
  match e with
  | Clicked R => (EventPage.handleClick R w).1
  | Alarm name R => EventPage.onAlarm R name w
  end.

Definition page_run (events : list Event) (w : World) : World :=
  foldl (fun w e => dispatch e w) (EventPage.init w) events.

(** * Vocabulary of the properties

    None of what follows is code of the page: these are the notions the
    statements and their proofs speak with. *)

Arguments values : simpl never.
Arguments filterUnread : simpl never.

(** ** Arrays *)

(** Every element of the array is an allocated object. The page builds its
    arrays from [storage.get], [JSON.parse], [filter] and [slice] only, so
    every array it handles is of this kind. *)
Definition allocated (h : Heap) (a : list ref) : Prop :=
  Forall (fun r => r < length h) a.

(** The array the clone of [bookmarks] is, in the heap [h]. *)
Definition clone_refs (h : Heap) (bookmarks : list ref) : list ref :=
  seq (length h) (length (values h bookmarks)).

(** ** The storage log *)

(** A [set] call that writes the key "pinboardUpdated". *)
Definition writes_pinboardUpdated (s : StorageSet) : Prop :=
  match s with
  | SetPinboardUpdated _ => True
  | SetPinboard _ => False
  end.

#[export] Instance writes_pinboardUpdated_dec s : Decision (writes_pinboardUpdated s).
Proof. destruct s; simpl; apply _. Defined.

(** ** The mark-read loop seen on values

    The loop only ever touches the objects of the clone. [markOneValue] and
    [markAllValues] are [markOneRead] and [markAllRead] on the list of values
    the clone holds; [markAllRead_clone] below proves that they are. *)

(** One round: the first entry with the description [d] gets [toread = "no"];
    without such an entry the round fails. *)
Definition markOneValue (vs : list Bookmark) (d : string) : option (list Bookmark) :=
  index ← findIndex (fun item => description item = d) vs;
  o ← vs !! index;
  Some (<[index := set_toread "no" o]> vs).

Fixpoint markAllValues (vs : list Bookmark) (ds : list string) : list Bookmark * bool :=
  match ds with
  | [] => (vs, true)
  | d :: rest =>
      match markOneValue vs d with
      | None => (vs, false)
      | Some vs' => markAllValues vs' rest
      end
  end.

(** The position [findIndex] returns for the bookmark [s]: the first
    position of [B] whose description is that of [s]. *)
Definition target (h : Heap) (B : list ref) (s : ref) : option nat :=
  b ← h !! s;
  findIndex (fun item => description <$> h !! item = Some (description b)) B.

(** The positions found for the bookmarks of [S]. *)
Definition targets (h : Heap) (B S : list ref) : list nat :=
  omap (target h B) S.

(** The same positions, from the values of [B] and the descriptions to mark. *)
Definition value_targets (vs : list Bookmark) (ds : list string) : list nat :=
  omap (fun d => findIndex (fun item => description item = d) vs) ds.

(** The entry at position [i], marked when [i] is one of the positions [T]. *)
Definition mark_at (T : list nat) (i : nat) (b : Bookmark) : Bookmark :=
  if decide (i ∈ T) then set_toread "no" b else b.

(** The list [B] holds, with the bookmarks of [S] marked read. *)
Definition mark_selected (h : Heap) (B S : list ref) : list Bookmark :=
  omap (fun r => (fun b => if decide (r ∈ S) then set_toread "no" b else b) <$> h !! r) B.

(** ** A batch and a click *)

(** The requests of a batch, from the values of the bookmarks to mark. *)
Definition add_requests (vs : list Bookmark) : list Request :=
  (fun b => PostsAdd (href b) (description b) "no") <$> vs.

(** The tabs opened for a list of bookmarks: one background tab each. *)
Definition background_tabs (vs : list Bookmark) : list Tab :=
  (fun b => mkTab (href b) false) <$> vs.

(** When the stored time is the remote one and the stored list is [l]: the
    array [handleClick] reads, the array it selects, and the world in which
    it calls [markBookmarksRead]. *)
Definition click_bookmarks (w : World) (l : list Bookmark) : list ref :=
  seq (length (heap w)) (length l).

Definition click_selection (w : World) (l : list Bookmark) : list ref :=
  take TAB_COUNT (filterUnread (heap w ++ l) (click_bookmarks w l)).

Definition click_world (w : World) (l : list Bookmark) : World :=
  tabs_create (background_tabs (take TAB_COUNT (filter unread l)))
    (sendNotification
       ("Opening " +:+ String_of_number (length (take TAB_COUNT (filter unread l)))
          +:+ " tabs from pinboard.")
       (with_heap (heap w ++ l) (fetch [PostsUpdate] w))).

(** The text [updateBadgeCount] gives the badge for a stored list. *)
Definition badge_of (l : list Bookmark) : string :=
  if decide (0 < length (filter unread l))
  then String_of_number (length (filter unread l)) else "".

(** The badge shows the stored list, whenever there is one. *)
Definition badge_shows_stored (w : World) : Prop :=
  forall l, pinboard w = Some l ->
    badgeText w = Some (badge_of l) /\ badgeColor w = Some "#000".

(** A mark-read request. *)
Definition is_add (q : Request) : Prop :=
  match q with
  | PostsAdd _ _ _ => True
  | _ => False
  end.

#[export] Instance is_add_dec q : Decision (is_add q).
Proof. destruct q; simpl; apply _. Defined.

(** What a round of the loop may do to an entry: nothing, or set [toread]
    to "no". *)
Definition marked_or_same (b b' : Bookmark) : Prop :=
  href b' = href b /\ description b' = description b /\
  (toread b' = toread b \/ toread b' = "no").

(** What a batch called on the array [B] in the world [w] may have done to
    the storage when it leaves the world [w']: nothing, or one [set] of the
    key "pinboard" to the values of [B] with some entries marked. *)
Definition stores_marked (w : World) (B : list ref) (w' : World) : Prop :=
  (pinboard w' = pinboard w /\ setLog w' = setLog w) \/
  exists stored,
    pinboard w' = Some stored /\
    setLog w' = setLog w ++ [SetPinboard stored] /\
    Forall2 marked_or_same (values (heap w) B) stored /\
    length (filter unread stored) <= length (filter unread (values (heap w) B)).

(** The world in which a click calls [markBookmarksRead] once it has read
    the list [l] in the world [x]: the notification is posted and the tabs
    are open. *)
Definition body_world (x : World) (l : list Bookmark) : World :=
  tabs_create (background_tabs (take TAB_COUNT (filter unread l)))
    (sendNotification
       ("Opening " +:+ String_of_number (length (take TAB_COUNT (filter unread l)))
          +:+ " tabs from pinboard.")
       (with_heap (heap x ++ l) x)).

(** [k] clicks in a row, each with the answers [R]. *)
Definition clicks (R : Remote) (k : nat) (w : World) : World :=
  Nat.iter k (fun w => (EventPage.handleClick R w).1) w.

(** ** Concrete inputs *)

Definition example_bookmark (name descr state : string) : Bookmark :=
  mkBookmark ("https://example.org/" +:+ name) descr state.

(** 15 bookmarks, 12 of them unread, with pairwise distinct descriptions; the
    read bookmarks are the 1st, the 6th and the 10th. *)
Definition fifteen_bookmarks : list Bookmark :=
  [ example_bookmark "r1" "Read 1" "no";
    example_bookmark "u1" "Unread 1" "yes";
    example_bookmark "u2" "Unread 2" "yes";
    example_bookmark "u3" "Unread 3" "yes";
    example_bookmark "u4" "Unread 4" "yes";
    example_bookmark "r2" "Read 2" "no";
    example_bookmark "u5" "Unread 5" "yes";
    example_bookmark "u6" "Unread 6" "yes";
    example_bookmark "u7" "Unread 7" "yes";
    example_bookmark "r3" "Read 3" "no";
    example_bookmark "u8" "Unread 8" "yes";
    example_bookmark "u9" "Unread 9" "yes";
    example_bookmark "u10" "Unread 10" "yes";
    example_bookmark "u11" "Unread 11" "yes";
    example_bookmark "u12" "Unread 12" "yes" ].

(** The same list, except that the first unread bookmark has the description
    of the read bookmark before it. *)
Definition fifteen_bookmarks_shared : list Bookmark :=
  [ example_bookmark "r1" "Same title" "no";
    example_bookmark "u1" "Same title" "yes";
    example_bookmark "u2" "Unread 2" "yes";
    example_bookmark "u3" "Unread 3" "yes";
    example_bookmark "u4" "Unread 4" "yes";
    example_bookmark "r2" "Read 2" "no";
    example_bookmark "u5" "Unread 5" "yes";
    example_bookmark "u6" "Unread 6" "yes";
    example_bookmark "u7" "Unread 7" "yes";
    example_bookmark "r3" "Read 3" "no";
    example_bookmark "u8" "Unread 8" "yes";
    example_bookmark "u9" "Unread 9" "yes";
    example_bookmark "u10" "Unread 10" "yes";
    example_bookmark "u11" "Unread 11" "yes";
    example_bookmark "u12" "Unread 12" "yes" ].

(** A page that has stored [l] at the time "2017-11-17T03:14:15Z". *)
Definition stored_world (l : list Bookmark) : World :=
  mkWorld [] (Some l) (Some "2017-11-17T03:14:15Z") [] None None [] [] [].

(** A service that reports this time and answers "done" to every request. *)
Definition agreeing_remote : Remote :=
  mkRemote (Some "2017-11-17T03:14:15Z") None (fun _ _ => Some "done").

(** A service that reports a later time and fails to send the list. *)
Definition later_remote : Remote :=
  mkRemote (Some "2017-11-18T08:00:00Z") None (fun _ _ => Some "done").

(** * Properties *)

(** ** Arrays and the heap *)

Lemma values_nil h : values h [] = [].
Proof. reflexivity. Qed.

Lemma values_cons_Some h r a b :
  h !! r = Some b -> values h (r :: a) = b :: values h a.
Proof. intros E. unfold values. simpl. by rewrite E. Qed.

Lemma values_cons_None h r a :
  h !! r = None -> values h (r :: a) = values h a.
Proof. intros E. unfold values. simpl. by rewrite E. Qed.

Lemma values_alloc h vs : values (h ++ vs) (seq (length h) (length vs)) = vs.
Proof.
  revert h. induction vs as [|v vs IH]; intros h; [done|].
  simpl. rewrite (values_cons_Some _ _ _ v).
  - f_equal. specialize (IH (h ++ [v])).
    rewrite length_app, <- app_assoc in IH. simpl in IH.
    by replace (length h + 1) with (S (length h)) in IH by lia.
  - by rewrite lookup_app_r, Nat.sub_diag by lia.
Qed.

Lemma allocated_alloc h vs : allocated (h ++ vs) (seq (length h) (length vs)).
Proof.
  apply Forall_forall. intros r Hr.
  apply elem_of_seq in Hr. rewrite length_app. lia.
Qed.

Lemma allocated_lookup h a i r :
  allocated h a -> a !! i = Some r -> is_Some (h !! r).
Proof.
  intros Ha Hi. apply lookup_lt_is_Some.
  eapply Forall_lookup_1 in Ha; eauto.
Qed.

Lemma values_lookup h a i :
  allocated h a -> values h a !! i = a !! i ≫= (fun r => h !! r).
Proof.
  revert i. induction a as [|r a IH]; intros i Ha; [done|].
  apply Forall_cons in Ha as [Hr Ha].
  destruct (lookup_lt_is_Some_2 h r Hr) as [b Hb].
  rewrite (values_cons_Some _ _ _ b Hb).
  destruct i as [|i]; simpl; [done|]. by apply IH.
Qed.

Lemma length_values h a : allocated h a -> length (values h a) = length a.
Proof.
  induction 1 as [|r a Hr _ IH]; [done|].
  destruct (lookup_lt_is_Some_2 h r Hr) as [b Hb].
  rewrite (values_cons_Some _ _ _ b Hb). simpl. by rewrite IH.
Qed.

Lemma is_unread_lookup h r b : h !! r = Some b -> is_unread h r <-> unread b.
Proof.
  intros E. unfold is_unread, unread. rewrite E. simpl. split; congruence.
Qed.

Lemma is_unread_allocated h r : is_unread h r -> r < length h.
Proof.
  unfold is_unread. intros E. apply lookup_lt_is_Some.
  destruct (h !! r); [eauto | discriminate].
Qed.

(** The filter commutes with reading the objects. *)
Lemma values_filterUnread h a :
  values h (filterUnread h a) = filter unread (values h a).
Proof.
  unfold filterUnread. induction a as [|r a IH]; [done|].
  rewrite filter_cons. destruct (h !! r) as [b|] eqn:E.
  - rewrite (values_cons_Some _ _ _ b E), filter_cons.
    destruct (decide (is_unread h r)) as [Hu|Hu];
      destruct (decide (unread b)) as [Hb|Hb].
    + rewrite (values_cons_Some _ _ _ b E). by rewrite IH.
    + by apply (is_unread_lookup _ _ _ E) in Hu.
    + by apply (is_unread_lookup _ _ _ E) in Hb.
    + done.
  - rewrite (values_cons_None _ _ _ E).
    destruct (decide (is_unread h r)) as [Hu|Hu]; [|done].
    unfold is_unread in Hu. by rewrite E in Hu.
Qed.

Lemma allocated_filterUnread h a : allocated h (filterUnread h a).
Proof.
  apply Forall_forall. intros r Hr.
  apply list_elem_of_filter in Hr as [Hu _]. by apply is_unread_allocated.
Qed.

Lemma length_filterUnread h a :
  length (filterUnread h a) = length (filter unread (values h a)).
Proof.
  rewrite <- values_filterUnread, length_values; [done|].
  apply allocated_filterUnread.
Qed.

(** A sublist of unread entries is a sublist of the filter's result. *)
Lemma sublist_filter_max {A} (P : A -> Prop) `{forall x, Decision (P x)} (l k : list A) :
  l `sublist_of` k -> Forall P l -> l `sublist_of` filter P k.
Proof.
  induction 1 as [|x l k _ IH|x l k _ IH]; intros Hl.
  - constructor.
  - apply Forall_cons in Hl as [Hx Hl].
    rewrite filter_cons_True by done. apply sublist_skip. by apply IH.
  - rewrite filter_cons. destruct (decide (P x)).
    + apply sublist_cons. by apply IH.
    + by apply IH.
Qed.

(** ** The unread filter *)

(** C5. [filterUnread] returns exactly the entries whose [toread] is "yes",
    in their original order: its result is a sublist of its argument, each of
    its entries has [toread] equal to "yes", an entry of the argument is kept
    exactly when its [toread] is "yes", and every sublist of the argument made
    of such entries only is a sublist of the result. *)
Theorem filterUnread_exact (h : Heap) (bookmarks : list ref) :
  filterUnread h bookmarks `sublist_of` bookmarks /\
  Forall (fun r => toread <$> h !! r = Some "yes") (filterUnread h bookmarks) /\
  (forall r, r ∈ filterUnread h bookmarks <->
             r ∈ bookmarks /\ toread <$> h !! r = Some "yes") /\
  (forall l, l `sublist_of` bookmarks /\
             Forall (fun r => toread <$> h !! r = Some "yes") l ->
             l `sublist_of` filterUnread h bookmarks).
Proof.
  unfold filterUnread. split; [|split; [|split]].
  - apply sublist_filter.
  - apply Forall_forall. intros r Hr. by apply list_elem_of_filter in Hr as [Hu _].
  - intros r. rewrite list_elem_of_filter. unfold is_unread. tauto.
  - intros l [Hsub Hall]. by apply sublist_filter_max.
Qed.

(** C8. Filtering twice is filtering once. *)
Theorem filterUnread_idempotent (h : Heap) (l : list ref) :
  filterUnread h (filterUnread h l) = filterUnread h l.
Proof.
  unfold filterUnread. rewrite list_filter_filter.
  apply list_filter_iff. intros r. tauto.
Qed.

(** ** Decimal strings *)

(** [String_of_number n] is the decimal numeral of [n]: read back as a
    decimal numeral it is [n]. *)
Lemma String_of_number_decimal (n : nat) :
  Nat.of_uint <$> NilZero.uint_of_string (String_of_number n) = Some n.
Proof.
  unfold String_of_number.
  assert (Nat.to_uint n <> Decimal.Nil) as Hnil.
  { intros E. pose proof (DecimalNat.Unsigned.to_of (Nat.to_uint n)) as H.
    rewrite DecimalNat.Unsigned.of_to, E in H. discriminate H. }
  rewrite (NilZero.usu _ Hnil). simpl. f_equal.
  apply DecimalNat.Unsigned.of_to.
Qed.

Lemma String_of_number_nonempty (n : nat) : String_of_number n <> "".
Proof.
  intros E. pose proof (String_of_number_decimal n) as H.
  rewrite E in H. discriminate.
Qed.

(** ** What the badge update leaves alone *)

Lemma getLocalBookmarks_Some w l :
  pinboard w = Some l ->
  EventPage.getLocalBookmarks w =
    (with_heap (heap w ++ l) w, Fulfilled (Some (seq (length (heap w)) (length l)))).
Proof. intros E. unfold EventPage.getLocalBookmarks. by rewrite E. Qed.

Lemma getLocalBookmarks_None w :
  pinboard w = None -> EventPage.getLocalBookmarks w = (w, Fulfilled None).
Proof. intros E. unfold EventPage.getLocalBookmarks. by rewrite E. Qed.

Lemma updateBadgeCount_Some w l :
  pinboard w = Some l ->
  EventPage.updateBadgeCount w =
    (setBadgeBackgroundColor "#000"
       (setBadgeText
          (if decide (0 < length (filter unread l))
           then String_of_number (length (filter unread l)) else "")
          (with_heap (heap w ++ l) w)),
     Fulfilled tt).
Proof.
  intros E. unfold EventPage.updateBadgeCount, await.
  rewrite (getLocalBookmarks_Some _ _ E). cbn [heap with_heap].
  by rewrite length_filterUnread, values_alloc.
Qed.

Lemma updateBadgeCount_None w :
  pinboard w = None -> EventPage.updateBadgeCount w = (w, Rejected TypeError).
Proof.
  intros E. unfold EventPage.updateBadgeCount, await.
  by rewrite (getLocalBookmarks_None _ E).
Qed.

(** The badge update writes no storage key, sends nothing, opens nothing and
    only allocates. *)
Lemma updateBadgeCount_frame w :
  let w' := (EventPage.updateBadgeCount w).1 in
  pinboard w' = pinboard w /\ pinboardUpdated w' = pinboardUpdated w /\
  setLog w' = setLog w /\ tabs w' = tabs w /\ fetches w' = fetches w /\
  notifications w' = notifications w /\ heap w `prefix_of` heap w'.
Proof.
  destruct (pinboard w) as [l|] eqn:E.
  - rewrite (updateBadgeCount_Some _ _ E). cbn. rewrite E.
    repeat split; try done. by apply prefix_app_r.
  - rewrite (updateBadgeCount_None _ E). cbn. by rewrite E.
Qed.

(** [setLocalBookmarks] writes the values of its array under "pinboard" with
    one [set], and nothing else of the storage. *)
Lemma setLocalBookmarks_frame a w :
  let w' := (EventPage.setLocalBookmarks a w).1 in
  pinboard w' = Some (values (heap w) a) /\
  pinboardUpdated w' = pinboardUpdated w /\
  setLog w' = setLog w ++ [SetPinboard (values (heap w) a)] /\
  tabs w' = tabs w /\ fetches w' = fetches w /\
  notifications w' = notifications w /\ heap w `prefix_of` heap w'.
Proof.
  unfold EventPage.setLocalBookmarks. cbn [fst].
  destruct (updateBadgeCount_frame
              (storage_set_pinboard (values (heap w) a) w))
    as (-> & -> & -> & -> & -> & -> & Hp).
  done.
Qed.

(** ** The sync check *)

Lemma shouldFetchNew_eq R w :
  EventPage.shouldFetchNew R w =
    match posts_update R with
    | None => (fetch [PostsUpdate] w, Rejected FetchError)
    | Some t =>
        if decide (pinboardUpdated w <> Some t)
        then (EventPage.setOldUpdatedTime t (fetch [PostsUpdate] w), Fulfilled true)
        else (fetch [PostsUpdate] w, Fulfilled false)
    end.
Proof.
  unfold EventPage.shouldFetchNew, await, EventPage.getOldUpdatedTime,
    EventPage.getNewUpdatedTime.
  destruct (posts_update R) as [t|]; [|done].
  by destruct (decide (pinboardUpdated w <> Some t)).
Qed.

(** C3. When the stored and the remote time differ, [shouldFetchNew] answers
    [true], the stored time becomes the remote one, and the call adds exactly
    one [set] to the log, the one that writes it. The same holds after
    [updateData], whatever [fetchNew] does (the request for all bookmarks may
    fail or be answered): the stored time is the remote one and the log has
    gained exactly one write of the key "pinboardUpdated". *)
Theorem shouldFetchNew_differ (R : Remote) (w : World) (newUpdated : string) :
  posts_update R = Some newUpdated ->
  pinboardUpdated w <> Some newUpdated ->
  (exists w',
     EventPage.shouldFetchNew R w = (w', Fulfilled true) /\
     pinboardUpdated w' = Some newUpdated /\
     pinboard w' = pinboard w /\
     setLog w' = setLog w ++ [SetPinboardUpdated newUpdated]) /\
  (let w'' := (EventPage.updateData R w).1 in
   pinboardUpdated w'' = Some newUpdated /\
   filter writes_pinboardUpdated (setLog w'') =
     filter writes_pinboardUpdated (setLog w) ++ [SetPinboardUpdated newUpdated]).
Proof.
  intros HR Hne. split.
  - eexists. rewrite shouldFetchNew_eq, HR, decide_True by done.
    split; [reflexivity|]. by cbn.
  - unfold EventPage.updateData, await.
    rewrite shouldFetchNew_eq, HR, decide_True by done.
    unfold EventPage.fetchNew.
    destruct (posts_all R) as [data|]; cbn [alloc fst].
    + match goal with
      | |- context [EventPage.setLocalBookmarks ?a ?x] =>
          destruct (setLocalBookmarks_frame a x) as (_ & -> & -> & _)
      end.
      cbn. split; [done|].
      rewrite !filter_app. cbn. by rewrite app_nil_r.
    + cbn. split; [done|]. rewrite filter_app. by cbn.
Qed.

(** C4. When the stored time is the remote time, [shouldFetchNew] answers
    [false] and calls no [set]: both stored keys and the log of writes are
    what they were. *)
Theorem shouldFetchNew_same (R : Remote) (w : World) (t : string) :
  pinboardUpdated w = Some t ->
  posts_update R = Some t ->
  exists w',
    EventPage.shouldFetchNew R w = (w', Fulfilled false) /\
    pinboard w' = pinboard w /\
    pinboardUpdated w' = pinboardUpdated w /\
    setLog w' = setLog w.
Proof.
  intros Hw HR. eexists.
  rewrite shouldFetchNew_eq, HR, decide_False by (rewrite Hw; auto).
  by cbn.
Qed.

(** ** The badge *)

(** C7. With a stored list, [updateBadgeCount] is fulfilled, sets the badge
    colour to "#000", and sets the badge text to the decimal numeral of the
    number of stored bookmarks whose [toread] is "yes" when that number is
    positive, and to the empty string when it is zero. *)
Theorem updateBadgeCount_text (w : World) (l : list Bookmark) :
  pinboard w = Some l ->
  let count := length (filter unread l) in
  exists w',
    EventPage.updateBadgeCount w = (w', Fulfilled tt) /\
    badgeColor w' = Some "#000" /\
    (0 < count ->
       badgeText w' = Some (String_of_number count) /\
       Nat.of_uint <$> NilZero.uint_of_string (String_of_number count) = Some count) /\
    (count = 0 -> badgeText w' = Some "").
Proof.
  intros E count. eexists. rewrite (updateBadgeCount_Some _ _ E).
  split; [reflexivity|]. cbn. fold count. split; [done|]. split.
  - intros Hpos. rewrite decide_True by done.
    split; [done|]. apply String_of_number_decimal.
  - intros Hz. rewrite decide_False by lia. done.
Qed.

(** ** [findIndex] *)

Lemma findIndex_cons {A} (P : A -> Prop) `{forall x, Decision (P x)} x l :
  findIndex P (x :: l) = if decide (P x) then Some 0 else S <$> findIndex P l.
Proof.
  unfold findIndex. cbn. destruct (decide (P x)); [done|].
  by destruct (list_find P l) as [[i y]|].
Qed.

Lemma findIndex_Some {A} (P : A -> Prop) `{forall x, Decision (P x)} l i :
  findIndex P l = Some i <->
  exists x, l !! i = Some x /\ P x /\ forall j y, l !! j = Some y -> j < i -> ~ P y.
Proof.
  unfold findIndex. split.
  - intros E. destruct (list_find P l) as [[j x]|] eqn:Ef; [|done].
    simpl in E. injection E as ->. exists x. by apply list_find_Some in Ef.
  - intros (x & Hx). apply (proj2 (list_find_Some P l i x)) in Hx. by rewrite Hx.
Qed.

Lemma findIndex_None {A} (P : A -> Prop) `{forall x, Decision (P x)} l :
  findIndex P l = None <-> Forall (fun x => ~ P x) l.
Proof.
  unfold findIndex. split.
  - intros E. apply (list_find_None P l).
    destruct (list_find P l); [discriminate E | done].
  - intros E. apply (list_find_None P l) in E. by rewrite E.
Qed.

Lemma findIndex_lt {A} (P : A -> Prop) `{forall x, Decision (P x)} l i :
  findIndex P l = Some i -> i < length l.
Proof.
  intros (x & Hx & _)%findIndex_Some. by apply lookup_lt_Some in Hx.
Qed.

(** Two arrays of one length whose entries pass the two tests at the same
    positions have the same first position. *)
Lemma findIndex_pointwise {A B} (P : A -> Prop) (Q : B -> Prop)
    `{forall x, Decision (P x)} `{forall y, Decision (Q y)} (l : list A) (k : list B) :
  length l = length k ->
  (forall i x y, l !! i = Some x -> k !! i = Some y -> (P x <-> Q y)) ->
  findIndex P l = findIndex Q k.
Proof.
  revert k. induction l as [|x l IH]; intros [|y k] Hlen Hpq; try done.
  rewrite !findIndex_cons.
  rewrite (decide_ext (P x) (Q y)) by (by apply (Hpq 0)).
  destruct (decide (Q y)); [done|]. f_equal.
  apply IH; [by injection Hlen|].
  intros i x' y' Hx' Hy'. by apply (Hpq (S i)).
Qed.

(** ** The mark-read loop on the values of the copy *)

Lemma markOneValue_length vs d vs' :
  markOneValue vs d = Some vs' -> length vs' = length vs.
Proof.
  unfold markOneValue. intros E.
  destruct (findIndex _ vs) as [i|]; [|done]. simpl in E.
  destruct (vs !! i); [|done]. simpl in E. injection E as <-.
  apply length_insert.
Qed.

Lemma markAllValues_length ds vs : length (markAllValues vs ds).1 = length vs.
Proof.
  revert vs. induction ds as [|d ds IH]; intros vs; [done|]. simpl.
  destruct (markOneValue vs d) as [vs'|] eqn:E; [|done].
  rewrite IH. by eapply markOneValue_length.
Qed.

(** In a heap [h0 ++ vs] whose tail [vs] is the copy, a round of the loop for
    a bookmark of [h0] is a round on [vs]. *)
Lemma markOneRead_clone h0 vs r b :
  h0 !! r = Some b ->
  markOneRead (seq (length h0) (length vs)) (h0 ++ vs) r =
    (fun vs' => h0 ++ vs') <$> markOneValue vs (description b).
Proof.
  intros Hr. unfold markOneRead, markOneValue.
  rewrite (lookup_app_l_Some _ _ _ _ Hr). simpl.
  rewrite (findIndex_pointwise _ (fun item => description item = description b)
             _ vs).
  - destruct (findIndex _ vs) as [i|] eqn:Ei; [|done]. simpl.
    pose proof (findIndex_lt _ _ _ Ei) as Hi.
    rewrite lookup_seq_lt by done. simpl.
    rewrite lookup_app_r by lia.
    replace (length h0 + i - length h0) with i by lia.
    destruct (vs !! i) as [o|]; [|done]. simpl.
    by rewrite insert_app_r.
  - by rewrite length_seq.
  - intros i x y [-> Hi]%lookup_seq Hy.
    rewrite lookup_app_r by lia.
    replace (length h0 + i - length h0) with i by lia.
    rewrite Hy. simpl. split; congruence.
Qed.

Lemma markAllRead_clone h0 rs vs :
  allocated h0 rs ->
  markAllRead (seq (length h0) (length vs)) rs (h0 ++ vs) =
    ((h0 ++ (markAllValues vs (description <$> values h0 rs)).1),
     (markAllValues vs (description <$> values h0 rs)).2).
Proof.
  intros Hrs. revert vs. induction Hrs as [|r rs Hr _ IH]; intros vs; [done|].
  destruct (lookup_lt_is_Some_2 h0 r Hr) as [b Hb].
  rewrite (values_cons_Some _ _ _ b Hb). simpl.
  rewrite (markOneRead_clone _ _ _ _ Hb).
  destruct (markOneValue vs (description b)) as [vs'|] eqn:E; simpl; [|done].
  rewrite <- (markOneValue_length _ _ _ E). apply IH.
Qed.

Lemma request_of_allocated h rs requests :
  mapM (request_of h) rs = Some requests -> allocated h rs.
Proof.
  intros E. assert (is_Some (mapM (request_of h) rs)) as Hs by eauto.
  apply mapM_is_Some_1 in Hs. eapply Forall_impl; [exact Hs|].
  intros r [q Hq]. simpl in Hq. unfold request_of in Hq.
  apply lookup_lt_is_Some. destruct (h !! r); [eauto | done].
Qed.

Lemma request_of_values h rs :
  allocated h rs ->
  mapM (request_of h) rs =
    Some ((fun b => PostsAdd (href b) (description b) "no") <$> values h rs).
Proof.
  induction 1 as [|r rs Hr _ IH]; [done|].
  destruct (lookup_lt_is_Some_2 h r Hr) as [b Hb].
  rewrite (values_cons_Some _ _ _ b Hb). cbn. rewrite IH.
  unfold request_of. by rewrite Hb.
Qed.

(** ** One call of [markBookmarksRead], step by step *)

Lemma markBookmarksRead_unallocated R B S w :
  mapM (request_of (heap w)) S = None ->
  EventPage.markBookmarksRead R B S w = (w, Rejected TypeError) /\
  Part000.markBookmarksRead R B S w = (w, Rejected TypeError).
Proof.
  intros E. unfold EventPage.markBookmarksRead, Part000.markBookmarksRead.
  by rewrite E.
Qed.

Lemma markBookmarksRead_no_answer R B S w :
  allocated (heap w) S ->
  all_responses R (add_requests (values (heap w) S)) = None ->
  EventPage.markBookmarksRead R B S w =
    (fetch (add_requests (values (heap w) S)) w, Rejected FetchError) /\
  Part000.markBookmarksRead R B S w =
    (fetch (add_requests (values (heap w) S)) w, Pending).
Proof.
  intros HS E. unfold EventPage.markBookmarksRead, Part000.markBookmarksRead.
  rewrite (request_of_values _ _ HS). fold (add_requests (values (heap w) S)).
  by rewrite E.
Qed.

Lemma EventPage_markBookmarksRead_run R B S w codes :
  allocated (heap w) S ->
  all_responses R (add_requests (values (heap w) S)) = Some codes ->
  EventPage.markBookmarksRead R B S w =
    let w1 := fetch (add_requests (values (heap w) S)) w in
    let p := if decide (length (filter failed_code codes) = 0)
             then Pending else Rejected (BatchError codes) in
    let m := markAllValues (values (heap w) B) (description <$> values (heap w) S) in
    if m.2
    then ((EventPage.setLocalBookmarks (clone_refs (heap w) B)
             (with_heap (heap w ++ m.1) w1)).1,
          settle (Fulfilled tt) p)
    else (with_heap (heap w ++ m.1) w1, settle (Rejected TypeError) p).
Proof.
  intros HS E. unfold EventPage.markBookmarksRead.
  rewrite (request_of_values _ _ HS). fold (add_requests (values (heap w) S)).
  rewrite E. unfold JSON_clone, alloc. cbn [heap fetch].
  rewrite (markAllRead_clone _ _ _ HS). cbn zeta.
  by destruct (markAllValues _ _).2.
Qed.

Lemma Part000_markBookmarksRead_run R B S w codes :
  allocated (heap w) S ->
  all_responses R (add_requests (values (heap w) S)) = Some codes ->
  Part000.markBookmarksRead R B S w =
    let w1 := fetch (add_requests (values (heap w) S)) w in
    let m := markAllValues (values (heap w) B) (description <$> values (heap w) S) in
    if decide (length (filter failed_code codes) = 0)
    then
      if m.2
      then ((Part000.updateBadgeCount
               (storage_set_pinboard
                  (values (heap w ++ m.1) (clone_refs (heap w) B))
                  (with_heap (heap w ++ m.1) w1))).1,
            Fulfilled tt)
      else (with_heap (heap w ++ m.1) w1, Pending)
    else (w1, Rejected NoReason).
Proof.
  intros HS E. unfold Part000.markBookmarksRead.
  rewrite (request_of_values _ _ HS). fold (add_requests (values (heap w) S)).
  rewrite E. cbn zeta.
  destruct (decide (length (filter failed_code codes) = 0)); [|done].
  unfold JSON_clone, alloc. cbn [heap fetch].
  rewrite (markAllRead_clone _ _ _ HS).
  by destruct (markAllValues _ _).2.
Qed.

(** What the clone holds once the loop is over. *)
Lemma values_clone_refs h B ds :
  values (h ++ (markAllValues (values h B) ds).1) (clone_refs h B) =
    (markAllValues (values h B) ds).1.
Proof.
  unfold clone_refs. rewrite <- (markAllValues_length ds (values h B)).
  apply values_alloc.
Qed.

(** The two revisions of the badge update are one function. *)
Lemma Part000_updateBadgeCount_eq w :
  Part000.updateBadgeCount w = EventPage.updateBadgeCount w.
Proof. reflexivity. Qed.

(** ** The arguments of [markBookmarksRead] *)

Lemma markBookmarksRead_heap R B S w :
  heap w `prefix_of` heap (EventPage.markBookmarksRead R B S w).1 /\
  heap w `prefix_of` heap (Part000.markBookmarksRead R B S w).1.
Proof.
  destruct (mapM (request_of (heap w)) S) as [requests|] eqn:Ereq.
  2: { destruct (markBookmarksRead_unallocated R B S w Ereq) as [-> ->]. done. }
  pose proof (request_of_allocated _ _ _ Ereq) as HS.
  destruct (all_responses R (add_requests (values (heap w) S))) as [codes|] eqn:Ec.
  2: { destruct (markBookmarksRead_no_answer R B S w HS Ec) as [-> ->]. done. }
  rewrite (EventPage_markBookmarksRead_run R B S w codes HS Ec).
  rewrite (Part000_markBookmarksRead_run R B S w codes HS Ec). cbn zeta.
  set (m := markAllValues _ _). split.
  - destruct m.2; cbn [fst].
    + match goal with
      | |- context [EventPage.setLocalBookmarks ?a ?x] =>
          destruct (setLocalBookmarks_frame a x) as (_ & _ & _ & _ & _ & _ & Hp)
      end.
      etrans; [|exact Hp]. cbn. by apply prefix_app_r.
    + cbn. by apply prefix_app_r.
  - destruct (decide _); [|done].
    destruct m.2; cbn [fst].
    + rewrite Part000_updateBadgeCount_eq.
      match goal with
      | |- context [EventPage.updateBadgeCount ?x] =>
          destruct (updateBadgeCount_frame x) as (_ & _ & _ & _ & _ & _ & Hp)
      end.
      etrans; [|exact Hp]. cbn. by apply prefix_app_r.
    + cbn. by apply prefix_app_r.
Qed.

(** C10. [markBookmarksRead] changes no object that existed when it was
    called, in either revision and whatever the state its promise ends in:
    the heap it leaves extends the heap it found, so each object reachable
    from [bookmarks] or [readBookmarks] has the fields it had. The arrays
    themselves are never assigned to. *)
Theorem markBookmarksRead_keeps_arguments
    (R : Remote) (bookmarks readBookmarks : list ref) (w : World) :
  let w1 := (EventPage.markBookmarksRead R bookmarks readBookmarks w).1 in
  let w2 := (Part000.markBookmarksRead R bookmarks readBookmarks w).1 in
  (heap w `prefix_of` heap w1 /\ heap w `prefix_of` heap w2) /\
  (forall r b, heap w !! r = Some b ->
     heap w1 !! r = Some b /\ heap w2 !! r = Some b) /\
  (forall a, allocated (heap w) a ->
     values (heap w1) a = values (heap w) a /\
     values (heap w2) a = values (heap w) a).
Proof.
  intros w1 w2.
  destruct (markBookmarksRead_heap R bookmarks readBookmarks w) as [[k1 H1] [k2 H2]].
  fold w1 in H1. fold w2 in H2. split; [|split].
  - split; [by exists k1 | by exists k2].
  - intros r b Hr. rewrite H1, H2. split; by apply lookup_app_l_Some.
  - intros a Ha. rewrite H1, H2. unfold values.
    split; apply list_omap_ext, Forall_Forall2_diag;
      (eapply Forall_impl; [exact Ha|]); intros r Hr; cbn beta;
      by rewrite lookup_app_l.
Qed.

(** ** A batch with a failed answer *)

Lemma failed_code_length codes :
  Exists failed_code codes -> length (filter failed_code codes) <> 0.
Proof.
  intros (c & Hin & Hc)%Exists_exists Hz.
  apply length_zero_iff_nil in Hz.
  assert (c ∈ filter failed_code codes) as Hf by by apply list_elem_of_filter.
  rewrite Hz in Hf. by apply not_elem_of_nil in Hf.
Qed.

(** The revision with the [else] branch: with one failed answer the promise
    is rejected, no [set] is called and no object is allocated or changed. *)
Lemma Part000_markBookmarksRead_failed R B S w codes :
  allocated (heap w) S ->
  all_responses R (add_requests (values (heap w) S)) = Some codes ->
  Exists failed_code codes ->
  exists w',
    Part000.markBookmarksRead R B S w = (w', Rejected NoReason) /\
    pinboard w' = pinboard w /\ pinboardUpdated w' = pinboardUpdated w /\
    setLog w' = setLog w /\ heap w' = heap w.
Proof.
  intros HS Ec Hf. eexists.
  rewrite (Part000_markBookmarksRead_run R B S w codes HS Ec). cbn zeta.
  rewrite decide_False by by apply failed_code_length.
  by cbn.
Qed.

(** [src/eventPage.ts]: with one failed answer the promise is rejected with
    the answers, and the loop and the [set] run all the same whenever every
    bookmark to mark has its description in the list. *)
Lemma EventPage_markBookmarksRead_failed R B S w codes :
  allocated (heap w) S ->
  all_responses R (add_requests (values (heap w) S)) = Some codes ->
  Exists failed_code codes ->
  let m := markAllValues (values (heap w) B) (description <$> values (heap w) S) in
  m.2 = true ->
  exists w',
    EventPage.markBookmarksRead R B S w = (w', Rejected (BatchError codes)) /\
    pinboard w' = Some m.1 /\
    setLog w' = setLog w ++ [SetPinboard m.1].
Proof.
  intros HS Ec Hf m Hok. eexists.
  rewrite (EventPage_markBookmarksRead_run R B S w codes HS Ec). cbn zeta.
  fold m. rewrite Hok, decide_False by by apply failed_code_length.
  split; [reflexivity|]. cbn [fst].
  match goal with
  | |- context [EventPage.setLocalBookmarks ?a ?x] =>
      destruct (setLocalBookmarks_frame a x) as (-> & _ & -> & _)
  end.
  cbn [heap with_heap setLog fetch]. unfold m.
  by rewrite values_clone_refs.
Qed.

(** C1, on [src/eventPage.ts]. One stored unread bookmark is opened and the
    service answers its mark-read request with a code other than "done": the
    promise is rejected with the answers, and the stored list has been
    overwritten with the bookmark marked read. On the same input the revision
    with the [else] branch rejects and leaves the stored list as it was. *)
Theorem markBookmarksRead_failed_code_overwrites :
  let b := mkBookmark "https://example.org/" "Example" "yes" in
  let w := mkWorld [b] (Some [b]) (Some "t") [] None None [] [] [] in
  let R := mkRemote (Some "t") None (fun _ _ => Some "something went wrong") in
  pinboard w = Some [b] /\
  (EventPage.markBookmarksRead R [0] [0] w).2 =
    Rejected (BatchError ["something went wrong"]) /\
  pinboard (EventPage.markBookmarksRead R [0] [0] w).1 =
    Some [mkBookmark "https://example.org/" "Example" "no"] /\
  setLog (EventPage.markBookmarksRead R [0] [0] w).1 =
    [SetPinboard [mkBookmark "https://example.org/" "Example" "no"]] /\
  (Part000.markBookmarksRead R [0] [0] w).2 = Rejected NoReason /\
  pinboard (Part000.markBookmarksRead R [0] [0] w).1 = Some [b] /\
  setLog (Part000.markBookmarksRead R [0] [0] w).1 = [].
Proof. vm_compute. repeat split. Qed.

(** ** Which entries a successful batch marks *)

Lemma set_toread_twice v b : set_toread v (set_toread v b) = set_toread v b.
Proof. reflexivity. Qed.

Lemma markOneValue_Some vs d vs' :
  markOneValue vs d = Some vs' ->
  exists i o,
    findIndex (fun item => description item = d) vs = Some i /\
    vs !! i = Some o /\ vs' = <[i := set_toread "no" o]> vs.
Proof.
  unfold markOneValue. intros E.
  destruct (findIndex _ vs) as [i|]; [|done]. simpl in E.
  destruct (vs !! i) as [o|] eqn:Eo; [|done]. simpl in E. injection E as <-.
  by exists i, o.
Qed.

(** A round changes no description, so the positions later rounds find are
    those of the list the loop started from. *)
Lemma value_targets_insert vs i o ds :
  vs !! i = Some o ->
  value_targets (<[i := set_toread "no" o]> vs) ds = value_targets vs ds.
Proof.
  intros Ho. unfold value_targets. apply list_omap_ext, Forall_Forall2_diag.
  apply Forall_forall. intros d _. apply findIndex_pointwise.
  - apply length_insert.
  - intros j x y Hx Hy. destruct (decide (i = j)) as [->|Hne].
    + rewrite list_lookup_insert_eq in Hx by by eapply lookup_lt_Some.
      injection Hx as <-. rewrite Ho in Hy. by injection Hy as <-.
    + rewrite list_lookup_insert_ne in Hx by done. by simplify_eq.
Qed.

Lemma markAllValues_ok ds vs :
  (markAllValues vs ds).2 = true ->
  (markAllValues vs ds).1 = imap (mark_at (value_targets vs ds)) vs.
Proof.
  revert vs. induction ds as [|d ds IH]; intros vs Hok.
  - simpl. apply list_eq. intros j. rewrite list_lookup_imap.
    by destruct (vs !! j).
  - simpl in *. destruct (markOneValue vs d) as [vs'|] eqn:E; [|done].
    apply markOneValue_Some in E as (i & o & Ei & Eo & ->).
    rewrite (IH _ Hok), (value_targets_insert _ _ _ _ Eo).
    unfold value_targets at 2. cbn [omap list_omap]. rewrite Ei.
    fold (value_targets vs ds).
    apply list_eq. intros j. rewrite !list_lookup_imap.
    destruct (decide (i = j)) as [->|Hne].
    + rewrite list_lookup_insert_eq by by eapply lookup_lt_Some.
      rewrite Eo. simpl. f_equal. unfold mark_at.
      rewrite (decide_True (P := j ∈ j :: _)) by by left.
      by destruct (decide _).
    + rewrite list_lookup_insert_ne by done.
      destruct (vs !! j) as [b|]; [|done]. simpl. f_equal. unfold mark_at.
      apply decide_ext. rewrite elem_of_cons. intuition congruence.
Qed.

(** If every description to mark occurs in the list, the loop reaches its end. *)
Lemma markAllValues_total ds vs :
  Forall (fun d => d ∈ description <$> vs) ds -> (markAllValues vs ds).2 = true.
Proof.
  intros Hds. revert vs Hds. induction ds as [|d ds IH]; intros vs Hds; [done|].
  apply Forall_cons in Hds as [Hd Hds]. simpl.
  destruct (findIndex (fun item => description item = d) vs) as [i|] eqn:Ei.
  - destruct (proj1 (findIndex_Some _ _ _) Ei) as (o & Ho & _).
    unfold markOneValue. rewrite Ei. simpl. rewrite Ho. simpl.
    apply IH. eapply Forall_impl; [exact Hds|]. intros d' Hd'. cbn beta in *.
    rewrite list_fmap_insert. simpl.
    rewrite list_insert_id; [done|]. by rewrite list_lookup_fmap, Ho.
  - apply findIndex_None in Ei.
    apply list_elem_of_fmap in Hd as (o & -> & Ho).
    rewrite Forall_forall in Ei. by destruct (Ei o Ho).
Qed.

Lemma targets_values h B S :
  allocated h B -> allocated h S ->
  targets h B S = value_targets (values h B) (description <$> values h S).
Proof.
  intros HB HS. induction HS as [|s S Hs _ IH]; [done|].
  destruct (lookup_lt_is_Some_2 h s Hs) as [b Hb].
  rewrite (values_cons_Some _ _ _ b Hb). unfold targets, value_targets in *.
  cbn [omap list_omap fmap list_fmap]. rewrite IH. unfold target at 1.
  rewrite Hb. simpl.
  rewrite (findIndex_pointwise _ (fun item => description item = description b)
             B (values h B)); [done| |].
  - by rewrite length_values.
  - intros i x y Hx Hy. rewrite (values_lookup _ _ _ HB), Hx in Hy. simpl in Hy.
    rewrite Hy. simpl. split; congruence.
Qed.

Lemma allocated_subseteq h B S : allocated h B -> S ⊆ B -> allocated h S.
Proof.
  unfold allocated. rewrite !Forall_forall. intros HB Hsub r Hr.
  apply HB, Hsub, Hr.
Qed.

(** With pairwise distinct descriptions, the positions found are the
    positions of the bookmarks to mark. *)
Lemma targets_NoDup h B S i r :
  allocated h B -> S ⊆ B ->
  NoDup (description <$> values h B) ->
  B !! i = Some r ->
  i ∈ targets h B S <-> r ∈ S.
Proof.
  intros HB Hsub Hnd Hi.
  assert (forall j x, B !! j = Some x ->
            (description <$> values h B) !! j = description <$> h !! x) as Hd.
  { intros j x Hj. by rewrite list_lookup_fmap, (values_lookup _ _ _ HB), Hj. }
  destruct (allocated_lookup _ _ _ _ HB Hi) as [b Hb].
  unfold targets. rewrite list_elem_of_omap. split.
  - intros (s & Hs & Ht). unfold target in Ht.
    destruct (h !! s) as [bs|] eqn:Ebs; [|done]. simpl in Ht.
    apply findIndex_Some in Ht as (x & Hx & Hdx & _).
    rewrite Hi in Hx. injection Hx as <-.
    destruct (proj1 (list_elem_of_lookup _ _) (Hsub _ Hs)) as [j Hj].
    pose proof (Hd _ _ Hi) as Di. pose proof (Hd _ _ Hj) as Dj.
    rewrite Hdx in Di. rewrite Ebs in Dj. simpl in Dj.
    assert (i = j) as -> by apply (NoDup_lookup _ i j _ Hnd Di Dj).
    rewrite Hi in Hj. by injection Hj as <-.
  - intros Hr. exists r. split; [done|]. unfold target. rewrite Hb. simpl.
    destruct (findIndex _ B) as [j|] eqn:Ej.
    + apply findIndex_Some in Ej as (x & Hx & Hdx & _).
      pose proof (Hd _ _ Hi) as Di. pose proof (Hd _ _ Hx) as Dj.
      rewrite Hb in Di. rewrite Hdx in Dj. simpl in Di.
      f_equal. apply (NoDup_lookup _ j i _ Hnd Dj Di).
    + apply findIndex_None in Ej. rewrite Forall_forall in Ej.
      destruct (Ej r); [by eapply list_elem_of_lookup_2|].
      by rewrite Hb.
Qed.

(** ** A batch that resolves *)

(** When every answer is "done" and every description to mark occurs in the
    list, the promise is fulfilled and the marked copy is stored with one
    [set]; the [add] requests are the only requests sent. *)
Lemma EventPage_markBookmarksRead_done R B S w codes :
  allocated (heap w) S ->
  all_responses R (add_requests (values (heap w) S)) = Some codes ->
  length (filter failed_code codes) = 0 ->
  let m := markAllValues (values (heap w) B) (description <$> values (heap w) S) in
  m.2 = true ->
  exists w',
    EventPage.markBookmarksRead R B S w = (w', Fulfilled tt) /\
    pinboard w' = Some m.1 /\
    pinboardUpdated w' = pinboardUpdated w /\
    setLog w' = setLog w ++ [SetPinboard m.1] /\
    tabs w' = tabs w /\
    fetches w' = fetches w ++ add_requests (values (heap w) S) /\
    notifications w' = notifications w.
Proof.
  intros HS Ec Hz m Hok. eexists.
  rewrite (EventPage_markBookmarksRead_run R B S w codes HS Ec). cbn zeta.
  fold m. rewrite Hok, decide_True by done.
  split; [reflexivity|]. cbn [fst].
  match goal with
  | |- context [EventPage.setLocalBookmarks ?a ?x] =>
      destruct (setLocalBookmarks_frame a x) as (-> & -> & -> & -> & -> & -> & _)
  end.
  cbn [heap with_heap setLog fetch pinboardUpdated tabs fetches notifications].
  unfold m. by rewrite values_clone_refs.
Qed.

(** Conversely, a fulfilled promise means that every request was answered
    "done", that the loop reached its end and that the marked copy is what
    is stored. *)
Lemma EventPage_markBookmarksRead_fulfilled R B S w w' :
  allocated (heap w) S ->
  EventPage.markBookmarksRead R B S w = (w', Fulfilled tt) ->
  let m := markAllValues (values (heap w) B) (description <$> values (heap w) S) in
  m.2 = true /\ pinboard w' = Some m.1 /\
  exists codes,
    all_responses R (add_requests (values (heap w) S)) = Some codes /\
    length (filter failed_code codes) = 0.
Proof.
  intros HS E m.
  destruct (all_responses R (add_requests (values (heap w) S))) as [codes|] eqn:Ec.
  2: { destruct (markBookmarksRead_no_answer R B S w HS Ec) as [E' _].
       rewrite E' in E. discriminate E. }
  rewrite (EventPage_markBookmarksRead_run R B S w codes HS Ec) in E.
  cbn zeta in E. fold m in E.
  destruct (decide (length (filter failed_code codes) = 0)) as [Hz|Hnz].
  2: { destruct m.2; discriminate E. }
  destruct m.2 eqn:Hok; [|discriminate E].
  destruct (EventPage_markBookmarksRead_done R B S w codes HS Ec Hz Hok)
    as (w2 & E2 & Hp & _).
  rewrite (EventPage_markBookmarksRead_run R B S w codes HS Ec) in E2.
  cbn zeta in E2. fold m in E2. rewrite Hok, decide_True in E2 by done.
  rewrite E in E2. injection E2 as <-.
  split; [done|]. split; [done|]. by exists codes.
Qed.

(** C2, as the code has it. After [markBookmarksRead(B, S)] is fulfilled, the
    stored list is [B] position by position, with [toread] set to "no" at
    each position [findIndex] found, that is at the first bookmark of [B]
    with the description of a bookmark of [S], and with every other bookmark
    as it was. When no two bookmarks of [B] share a description these are the
    positions of the bookmarks of [S]: each bookmark of [S] is stored with
    [toread] "no", and each bookmark of [B] outside [S] is stored unchanged. *)
Theorem markBookmarksRead_resolved
    (R : Remote) (B S : list ref) (w w' : World) :
  allocated (heap w) B ->
  S ⊆ B ->
  EventPage.markBookmarksRead R B S w = (w', Fulfilled tt) ->
  exists stored,
    pinboard w' = Some stored /\
    length stored = length B /\
    (forall i r b, B !! i = Some r -> heap w !! r = Some b ->
       stored !! i =
         Some (if decide (i ∈ targets (heap w) B S) then set_toread "no" b else b)) /\
    (NoDup (description <$> values (heap w) B) ->
     forall i r b, B !! i = Some r -> heap w !! r = Some b ->
       stored !! i = Some (if decide (r ∈ S) then set_toread "no" b else b)).
Proof.
  intros HB Hsub E.
  pose proof (allocated_subseteq _ _ _ HB Hsub) as HS.
  destruct (EventPage_markBookmarksRead_fulfilled R B S w w' HS E)
    as (Hok & Hp & _).
  rewrite (markAllValues_ok _ _ Hok) in Hp.
  rewrite <- (targets_values _ _ _ HB HS) in Hp.
  eexists. split; [exact Hp|].
  assert (forall i r b, B !! i = Some r -> heap w !! r = Some b ->
            imap (mark_at (targets (heap w) B S)) (values (heap w) B) !! i =
              Some (mark_at (targets (heap w) B S) i b)) as Hl.
  { intros i r b Hi Hr.
    by rewrite list_lookup_imap, (values_lookup _ _ _ HB), Hi; simpl; rewrite Hr. }
  split; [by rewrite length_imap, length_values|]. split.
  - exact Hl.
  - intros Hnd i r b Hi Hr. rewrite (Hl i r b Hi Hr). f_equal. unfold mark_at.
    apply decide_ext. by apply targets_NoDup.
Qed.

(** A list of three bookmarks with distinct descriptions, the first and the
    last of which are marked. *)
Lemma markBookmarksRead_resolved_witness :
  let b0 := mkBookmark "https://a.example/" "A" "yes" in
  let b1 := mkBookmark "https://b.example/" "B" "no" in
  let b2 := mkBookmark "https://c.example/" "C" "yes" in
  let w := mkWorld [b0; b1; b2] (Some [b0; b1; b2]) (Some "t") [] None None [] [] [] in
  let R := mkRemote (Some "t") None (fun _ _ => Some "done") in
  exists stored,
    pinboard (EventPage.markBookmarksRead R [0; 1; 2] [0; 2] w).1 = Some stored /\
    length stored = 3 /\
    (forall i r b, [0; 1; 2] !! i = Some r -> heap w !! r = Some b ->
       stored !! i =
         Some (if decide (i ∈ targets (heap w) [0; 1; 2] [0; 2])
               then set_toread "no" b else b)) /\
    (NoDup (description <$> values (heap w) [0; 1; 2]) ->
     forall i r b, [0; 1; 2] !! i = Some r -> heap w !! r = Some b ->
       stored !! i = Some (if decide (r ∈ [0; 2]) then set_toread "no" b else b)).
Proof.
  intros b0 b1 b2 w R.
  apply (markBookmarksRead_resolved R [0; 1; 2] [0; 2] w).
  - unfold allocated. repeat constructor.
  - intros r Hr. apply elem_of_cons in Hr as [->|Hr]; [by left|].
    apply elem_of_cons in Hr as [->|Hr]; [do 2 right; by left|].
    by apply not_elem_of_nil in Hr.
  - vm_compute. reflexivity.
Defined.

(** C2, as it is stated, fails when two bookmarks share a description. The
    list holds two unread bookmarks described "Same"; the second is marked.
    The promise is fulfilled, the second bookmark is stored with [toread]
    "yes" and the first, which was not to be marked, with [toread] "no". *)
Lemma markBookmarksRead_shared_description :
  let b0 := mkBookmark "https://a.example/" "Same" "yes" in
  let b1 := mkBookmark "https://b.example/" "Same" "yes" in
  let w := mkWorld [b0; b1] (Some [b0; b1]) (Some "t") [] None None [] [] [] in
  let R := mkRemote (Some "t") None (fun _ _ => Some "done") in
  let B := [0; 1] in
  let S := [1] in
  allocated (heap w) B /\ S ⊆ B /\ (0 ∉ S) /\ (1 ∈ S) /\
  EventPage.markBookmarksRead R B S w =
    ((EventPage.markBookmarksRead R B S w).1, Fulfilled tt) /\
  pinboard (EventPage.markBookmarksRead R B S w).1 =
    Some [mkBookmark "https://a.example/" "Same" "no";
          mkBookmark "https://b.example/" "Same" "yes"].
Proof.
  cbv zeta. split; [|split; [|split; [|split]]].
  - unfold allocated. repeat constructor.
  - intros r Hr. apply list_elem_of_singleton in Hr as ->. right; by left.
  - intros Hr. by apply list_elem_of_singleton in Hr.
  - by left.
  - vm_compute. split; reflexivity.
Qed.

(** ** The click handler *)

Lemma allocated_take h a n : allocated h a -> allocated h (take n a).
Proof. intros Ha. by apply Forall_take. Qed.

Lemma values_take h a n :
  allocated h a -> values h (take n a) = take n (values h a).
Proof.
  intros Ha. revert n. induction Ha as [|r a Hr _ IH]; intros [|n]; try done.
  destruct (lookup_lt_is_Some_2 h r Hr) as [b Hb]. simpl.
  by rewrite !(values_cons_Some _ _ _ b Hb), IH.
Qed.

Lemma values_drop h a n :
  allocated h a -> values h (drop n a) = drop n (values h a).
Proof.
  intros Ha. revert n. induction Ha as [|r a Hr _ IH]; intros [|n]; try done.
  destruct (lookup_lt_is_Some_2 h r Hr) as [b Hb]. simpl.
  by rewrite (values_cons_Some _ _ _ b Hb), IH.
Qed.

Lemma mapM_lookup_values {C} (f : Bookmark -> C) h a :
  allocated h a ->
  mapM (fun r => f <$> h !! r) a = Some (f <$> values h a).
Proof.
  induction 1 as [|r a Hr _ IH]; [done|].
  destruct (lookup_lt_is_Some_2 h r Hr) as [b Hb].
  rewrite (values_cons_Some _ _ _ b Hb). cbn. by rewrite IH, Hb.
Qed.

Lemma click_selection_values w l :
  values (heap w ++ l) (click_selection w l) = take TAB_COUNT (filter unread l).
Proof.
  unfold click_selection, click_bookmarks.
  rewrite values_take by apply allocated_filterUnread.
  by rewrite values_filterUnread, values_alloc.
Qed.

Lemma click_selection_allocated w l :
  allocated (heap w ++ l) (click_selection w l).
Proof. apply allocated_take, allocated_filterUnread. Qed.

Lemma click_selection_subseteq w l : click_selection w l ⊆ click_bookmarks w l.
Proof.
  intros r Hr. unfold click_selection in Hr.
  apply subseteq_take in Hr.
  by apply list_elem_of_filter in Hr as [_ Hr].
Qed.

Lemma handleClick_run R w l t :
  pinboard w = Some l ->
  pinboardUpdated w = Some t ->
  posts_update R = Some t ->
  EventPage.handleClick R w =
    if decide (length (filter unread l) = 0)
    then (sendNotification "There aren't any unread bookmarks to open!"
            (with_heap (heap w ++ l) (fetch [PostsUpdate] w)), Fulfilled tt)
    else EventPage.markBookmarksRead R (click_bookmarks w l) (click_selection w l)
           (click_world w l).
Proof.
  intros Hl Ht HR. unfold EventPage.handleClick, EventPage.updateData, await.
  rewrite shouldFetchNew_eq, HR, decide_False by (rewrite Ht; auto).
  unfold resolved.
  rewrite (getLocalBookmarks_Some (fetch [PostsUpdate] w) l Hl).
  cbn [heap fetch with_heap sendNotification].
  rewrite length_filterUnread, values_alloc.
  destruct (decide (length (filter unread l) = 0)) as [Hz|Hnz]; [done|].
  fold (click_bookmarks w l). fold (click_selection w l).
  rewrite (mapM_lookup_values _ _ _ (click_selection_allocated w l)).
  rewrite click_selection_values.
  replace (length (click_selection w l))
    with (length (take TAB_COUNT (filter unread l)))
    by (rewrite <- (click_selection_values w l), length_values;
        [done | apply click_selection_allocated]).
  reflexivity.
Qed.

Lemma mark_selected_lookup h B S i r b :
  allocated h B -> B !! i = Some r -> h !! r = Some b ->
  mark_selected h B S !! i = Some (if decide (r ∈ S) then set_toread "no" b else b).
Proof.
  intros HB. revert i. induction HB as [|x B Hx _ IH]; intros i Hi Hr; [done|].
  destruct (lookup_lt_is_Some_2 h x Hx) as [bx Hbx].
  unfold mark_selected in *. cbn [omap list_omap]. rewrite Hbx. cbn [fmap option_fmap option_map].
  destruct i as [|i]; simpl in *.
  - injection Hi as ->. rewrite Hr in Hbx. by injection Hbx as ->.
  - by apply IH.
Qed.

Lemma length_mark_selected h B S :
  allocated h B -> length (mark_selected h B S) = length B.
Proof.
  induction 1 as [|x B Hx _ IH]; [done|].
  destruct (lookup_lt_is_Some_2 h x Hx) as [bx Hbx].
  unfold mark_selected in *. cbn [omap list_omap]. rewrite Hbx. simpl. by rewrite IH.
Qed.

(** The loop of a batch over a selection [S] of [B]: it reaches its end, it
    marks the positions [findIndex] finds, and with pairwise distinct
    descriptions these are the bookmarks of [S]. *)
Lemma marked_values h B S :
  allocated h B -> S ⊆ B ->
  let m := markAllValues (values h B) (description <$> values h S) in
  m.2 = true /\
  m.1 = imap (mark_at (targets h B S)) (values h B) /\
  (NoDup (description <$> values h B) -> m.1 = mark_selected h B S).
Proof.
  intros HB Hsub m.
  pose proof (allocated_subseteq _ _ _ HB Hsub) as HS.
  assert (m.2 = true) as Hok.
  { apply markAllValues_total, Forall_forall. intros d Hd.
    apply list_elem_of_fmap in Hd as (b & -> & Hb).
    apply list_elem_of_omap in Hb as (r & Hr & Hb).
    apply list_elem_of_fmap. exists b. split; [done|].
    apply list_elem_of_omap. exists r. split; [by apply Hsub | done]. }
  assert (m.1 = imap (mark_at (targets h B S)) (values h B)) as Hm.
  { unfold m in *. by rewrite (markAllValues_ok _ _ Hok), targets_values. }
  split; [done|]. split; [done|].
  intros Hnd. rewrite Hm. apply list_eq. intros i.
  rewrite list_lookup_imap, (values_lookup _ _ _ HB).
  destruct (B !! i) as [r|] eqn:Hi; simpl.
  - destruct (allocated_lookup _ _ _ _ HB Hi) as [b Hb]. rewrite Hb. simpl.
    rewrite (mark_selected_lookup _ _ _ _ _ _ HB Hi Hb). f_equal. unfold mark_at.
    apply decide_ext. by apply targets_NoDup.
  - symmetry. apply lookup_ge_None. rewrite length_mark_selected by done.
    by apply lookup_ge_None.
Qed.

(** What is still unread once the bookmarks of [S] are marked. *)
Lemma filter_unread_mark_selected h B S :
  filter unread (mark_selected h B S) =
    values h (filter (fun r => r ∉ S) (filterUnread h B)).
Proof.
  unfold mark_selected, filterUnread. induction B as [|r B IH]; [done|].
  cbn [omap list_omap]. rewrite (filter_cons (is_unread h)).
  destruct (h !! r) as [b|] eqn:Hb; cbn [fmap option_fmap option_map].
  - destruct (decide (is_unread h r)) as [Hu|Hu].
    + rewrite (filter_cons (fun r => r ∉ S)).
      destruct (decide (r ∈ S)) as [Hin|Hin].
      * rewrite filter_cons_False by (unfold unread; simpl; discriminate).
        by rewrite decide_False by tauto.
      * rewrite decide_True by done. rewrite (values_cons_Some _ _ _ b Hb).
        rewrite filter_cons_True by by apply (is_unread_lookup _ _ _ Hb).
        by rewrite IH.
    + rewrite filter_cons_False; [done|].
      destruct (decide (r ∈ S)).
      * unfold unread. simpl. discriminate.
      * intros Hb'. by apply Hu, (is_unread_lookup _ _ _ Hb).
  - rewrite decide_False; [done|]. unfold is_unread. by rewrite Hb.
Qed.

Lemma filter_none {A} (P : A -> Prop) `{forall x, Decision (P x)} (l : list A) :
  Forall (fun x => ~ P x) l -> filter P l = [].
Proof.
  induction 1 as [|x l Hx _ IH]; [done|]. by rewrite filter_cons_False.
Qed.

Lemma filter_all {A} (P : A -> Prop) `{forall x, Decision (P x)} (l : list A) :
  Forall P l -> filter P l = l.
Proof.
  induction 1 as [|x l Hx _ IH]; [done|]. by rewrite filter_cons_True, IH.
Qed.

(** Removing by membership the first part of a list without repetition
    leaves the second part. *)
Lemma filter_not_in_prefix {A} `{EqDecision A} (l1 l2 : list A) :
  NoDup (l1 ++ l2) -> filter (fun x => x ∉ l1) (l1 ++ l2) = l2.
Proof.
  intros (_ & Hdis & _)%NoDup_app. rewrite filter_app.
  rewrite filter_none, filter_all; [done| |].
  - apply Forall_forall. intros x Hx Hin. by apply (Hdis x Hin).
  - apply Forall_forall. intros x Hx Hnx. by apply Hnx.
Qed.

Lemma filter_not_in_take {A} `{EqDecision A} (n : nat) (l : list A) :
  NoDup l -> filter (fun x => x ∉ take n l) l = drop n l.
Proof.
  intros Hnd. rewrite <- (take_drop n l) in Hnd.
  pose proof (filter_not_in_prefix _ _ Hnd) as E.
  by rewrite take_drop in E.
Qed.

Lemma all_done_no_failure codes :
  Forall (fun c => c = "done") codes -> length (filter failed_code codes) = 0.
Proof.
  intros Hd. rewrite filter_none; [done|].
  eapply Forall_impl; [exact Hd|]. intros c -> Hc. by apply Hc.
Qed.

Lemma click_bookmarks_values w l :
  values (heap w ++ l) (click_bookmarks w l) = l.
Proof. apply values_alloc. Qed.

Lemma click_bookmarks_allocated w l :
  allocated (heap w ++ l) (click_bookmarks w l).
Proof. apply allocated_alloc. Qed.

(** A click with nothing to fetch anew, a stored list with unread bookmarks of
    pairwise distinct descriptions, and "done" for every answer. *)
Lemma handleClick_marks R w l t codes :
  pinboard w = Some l ->
  pinboardUpdated w = Some t ->
  posts_update R = Some t ->
  length (filter unread l) <> 0 ->
  all_responses R (add_requests (take TAB_COUNT (filter unread l))) = Some codes ->
  Forall (fun c => c = "done") codes ->
  NoDup (description <$> l) ->
  exists w' stored,
    EventPage.handleClick R w = (w', Fulfilled tt) /\
    tabs w' = tabs w ++ background_tabs (take TAB_COUNT (filter unread l)) /\
    fetches w' =
      fetches w ++ PostsUpdate :: add_requests (take TAB_COUNT (filter unread l)) /\
    pinboard w' = Some stored /\
    length stored = length l /\
    filter unread stored = drop TAB_COUNT (filter unread l).
Proof.
  intros Hl Ht HR Hnz Ec Hdone Hnd.
  rewrite (handleClick_run R w l t Hl Ht HR), decide_False by done.
  pose proof (click_selection_allocated w l) as HS.
  pose proof (click_bookmarks_allocated w l) as HB.
  destruct (marked_values _ _ _ HB (click_selection_subseteq w l))
    as (Hok & _ & Hm).
  rewrite click_bookmarks_values in Hm. specialize (Hm Hnd).
  rewrite <- (click_selection_values w l) in Ec.
  destruct (EventPage_markBookmarksRead_done R (click_bookmarks w l)
              (click_selection w l) (click_world w l) codes HS Ec
              (all_done_no_failure _ Hdone) Hok)
    as (w' & E & Hp & _ & _ & Htabs & Hf & _).
  exists w', (mark_selected (heap w ++ l) (click_bookmarks w l) (click_selection w l)).
  split; [exact E|]. split; [by rewrite Htabs|]. split.
  { rewrite Hf. cbn [click_world heap fetches tabs_create sendNotification with_heap fetch].
    by rewrite click_selection_values, <- app_assoc. }
  split.
  { rewrite Hp. change (heap (click_world w l)) with (heap w ++ l).
    by rewrite click_bookmarks_values, Hm. }
  split.
  { rewrite length_mark_selected by done. apply length_seq. }
  rewrite filter_unread_mark_selected. unfold click_selection.
  rewrite filter_not_in_take by apply NoDup_filter, NoDup_seq.
  rewrite values_drop by apply allocated_filterUnread.
  by rewrite values_filterUnread, click_bookmarks_values.
Qed.

(** C6, as the code has it. The stored list has 15 bookmarks, 12 of them
    unread, and no two share a description; the stored time is the remote
    one and the ten mark-read requests are all answered "done". One click is
    fulfilled; it opens exactly ten background tabs, those of the first ten
    unread bookmarks in list order; after the request for the update time it
    sends exactly ten mark-read requests, for those ten bookmarks; and the
    list it stores has 15 bookmarks of which exactly two are still unread,
    the eleventh and the twelfth unread of the list it found. *)
Theorem handleClick_fifteen_bookmarks
    (R : Remote) (w : World) (l : list Bookmark) (t : string) (codes : list string) :
  pinboard w = Some l ->
  length l = 15 ->
  length (filter unread l) = 12 ->
  NoDup (description <$> l) ->
  pinboardUpdated w = Some t ->
  posts_update R = Some t ->
  all_responses R (add_requests (take 10 (filter unread l))) = Some codes ->
  Forall (fun c => c = "done") codes ->
  exists w' stored,
    EventPage.handleClick R w = (w', Fulfilled tt) /\
    tabs w' = tabs w ++ background_tabs (take 10 (filter unread l)) /\
    length (background_tabs (take 10 (filter unread l))) = 10 /\
    fetches w' = fetches w ++ PostsUpdate :: add_requests (take 10 (filter unread l)) /\
    length (add_requests (take 10 (filter unread l))) = 10 /\
    pinboard w' = Some stored /\
    length stored = 15 /\
    filter unread stored = drop 10 (filter unread l) /\
    length (filter unread stored) = 2.
Proof.
  intros Hl Hlen Hu Hnd Ht HR Ec Hdone.
  destruct (handleClick_marks R w l t codes Hl Ht HR) as
    (w' & stored & E & Htabs & Hf & Hp & Hls & Hfu); try done.
  { rewrite Hu. lia. }
  exists w', stored. unfold TAB_COUNT in *.
  repeat split; try done.
  - unfold background_tabs. rewrite length_fmap, length_take. lia.
  - unfold add_requests. rewrite length_fmap, length_take. lia.
  - by rewrite Hls.
  - rewrite Hfu, length_drop. lia.
Qed.

(** A click on the stored list [fifteen_bookmarks]. *)
Lemma handleClick_fifteen_bookmarks_witness :
  exists w' stored,
    EventPage.handleClick agreeing_remote (stored_world fifteen_bookmarks) =
      (w', Fulfilled tt) /\
    tabs w' = tabs (stored_world fifteen_bookmarks) ++
              background_tabs (take 10 (filter unread fifteen_bookmarks)) /\
    length (background_tabs (take 10 (filter unread fifteen_bookmarks))) = 10 /\
    fetches w' = fetches (stored_world fifteen_bookmarks) ++
                 PostsUpdate :: add_requests (take 10 (filter unread fifteen_bookmarks)) /\
    length (add_requests (take 10 (filter unread fifteen_bookmarks))) = 10 /\
    pinboard w' = Some stored /\
    length stored = 15 /\
    filter unread stored = drop 10 (filter unread fifteen_bookmarks) /\
    length (filter unread stored) = 2.
Proof.
  apply (handleClick_fifteen_bookmarks agreeing_remote
           (stored_world fifteen_bookmarks) fifteen_bookmarks
           "2017-11-17T03:14:15Z" (replicate 10 "done")).
  - reflexivity.
  - reflexivity.
  - vm_compute. reflexivity.
  - refine (bool_decide_unpack _ _). vm_compute. exact I.
  - reflexivity.
  - reflexivity.
  - vm_compute. reflexivity.
  - repeat constructor.
Defined.

(** C6, as it is stated, fails when descriptions are shared. The stored list
    has 15 bookmarks, 12 of them unread, the time is the remote one and every
    answer is "done". The click is fulfilled, opens ten tabs and sends ten
    mark-read requests, and three bookmarks are left unread: the first unread
    one, which was opened, and the two that were not selected. *)
Lemma handleClick_shared_description :
  let w := stored_world fifteen_bookmarks_shared in
  let r := EventPage.handleClick agreeing_remote w in
  length fifteen_bookmarks_shared = 15 /\
  length (filter unread fifteen_bookmarks_shared) = 12 /\
  pinboardUpdated w = posts_update agreeing_remote /\
  r.2 = Fulfilled tt /\
  length (tabs r.1) = 10 /\
  url <$> tabs r.1 = href <$> take 10 (filter unread fifteen_bookmarks_shared) /\
  length (fetches r.1) = 11 /\
  filter unread <$> pinboard r.1 =
    Some [ example_bookmark "u1" "Same title" "yes";
           example_bookmark "u11" "Unread 11" "yes";
           example_bookmark "u12" "Unread 12" "yes" ].
Proof. vm_compute. repeat split. Qed.

(** ** The stored list as a precondition *)

Lemma handleClick_no_list R w t :
  pinboard w = None ->
  pinboardUpdated w = Some t ->
  posts_update R = Some t ->
  EventPage.handleClick R w = (fetch [PostsUpdate] w, Rejected TypeError).
Proof.
  intros Hl Ht HR. unfold EventPage.handleClick, EventPage.updateData, await.
  rewrite shouldFetchNew_eq, HR, decide_False by (rewrite Ht; auto).
  unfold resolved.
  by rewrite (getLocalBookmarks_None (fetch [PostsUpdate] w) Hl).
Qed.

(** Whenever the stored time is not the remote one, or the remote one cannot
    be had, the click ends before it reads the stored list: [fetchNew] never
    resolves. *)
Lemma handleClick_refetch R w :
  posts_update R <> pinboardUpdated w \/ posts_update R = None ->
  (EventPage.handleClick R w).2 = Rejected FetchError \/
  (EventPage.handleClick R w).2 = Pending.
Proof.
  intros Hne. unfold EventPage.handleClick, EventPage.updateData, await.
  rewrite shouldFetchNew_eq. destruct (posts_update R) as [t|]; [|by left].
  destruct (decide (pinboardUpdated w <> Some t)) as [Hd|Hd].
  - unfold EventPage.fetchNew. destruct (posts_all R); [by right | by left].
  - destruct Hne as [Hne|Hne]; [|done]. destruct Hd. congruence.
Qed.

(** With a stored list, the batch of a click never throws: the bookmarks it
    marks are bookmarks of the list it searches. *)
Lemma click_batch_no_TypeError R w l :
  (EventPage.markBookmarksRead R (click_bookmarks w l) (click_selection w l)
     (click_world w l)).2 <> Rejected TypeError.
Proof.
  pose proof (click_selection_allocated w l) as HS.
  pose proof (click_bookmarks_allocated w l) as HB.
  destruct (marked_values _ _ _ HB (click_selection_subseteq w l)) as (Hok & _).
  change (heap w ++ l) with (heap (click_world w l)) in HS, Hok.
  destruct (all_responses R
              (add_requests (values (heap (click_world w l)) (click_selection w l))))
    as [codes|] eqn:Ec.
  - rewrite (EventPage_markBookmarksRead_run R _ _ _ codes HS Ec). cbn zeta.
    rewrite Hok. cbn [snd]. by destruct (decide _).
  - destruct (markBookmarksRead_no_answer R (click_bookmarks w l) _ _ HS Ec)
      as [-> _]. done.
Qed.

Lemma handleClick_no_TypeError R w l :
  pinboard w = Some l -> (EventPage.handleClick R w).2 <> Rejected TypeError.
Proof.
  intros Hl.
  destruct (decide (posts_update R = pinboardUpdated w)) as [He|Hne].
  - destruct (posts_update R) as [t|] eqn:HR.
    + rewrite (handleClick_run R w l t Hl (eq_sym He) HR).
      destruct (decide _); [done|]. apply click_batch_no_TypeError.
    + destruct (handleClick_refetch R w) as [-> | ->]; [by right | done..].
  - destruct (handleClick_refetch R w) as [-> | ->]; [by left | done..].
Qed.

(** C9. A "pinboard" key that was never written makes [getLocalBookmarks]
    resolve with [undefined], not with an empty array; [updateBadgeCount] is
    then rejected with the TypeError of [undefined.filter], and so is
    [handleClick] when it reaches the filter, which is when the stored time
    is the remote one (otherwise it ends in [updateData]); in no case is the
    click fulfilled. With a stored list, [getLocalBookmarks] resolves with an
    array holding it, [updateBadgeCount] is fulfilled and [handleClick] is
    never rejected with a TypeError. *)
Theorem stored_list_precondition (R : Remote) (w : World) :
  (pinboard w = None ->
     EventPage.getLocalBookmarks w = (w, Fulfilled None) /\
     EventPage.updateBadgeCount w = (w, Rejected TypeError) /\
     (forall t, pinboardUpdated w = Some t /\ posts_update R = Some t ->
        EventPage.handleClick R w = (fetch [PostsUpdate] w, Rejected TypeError)) /\
     (EventPage.handleClick R w).2 <> Fulfilled tt) /\
  (forall l, pinboard w = Some l ->
     (exists w' a,
        EventPage.getLocalBookmarks w = (w', Fulfilled (Some a)) /\
        values (heap w') a = l) /\
     (EventPage.updateBadgeCount w).2 = Fulfilled tt /\
     (EventPage.handleClick R w).2 <> Rejected TypeError).
Proof.
  split.
  - intros Hl. split; [by apply getLocalBookmarks_None|].
    split; [by apply updateBadgeCount_None|]. split.
    + intros t [Ht HR]. by apply (handleClick_no_list R w t).
    + destruct (decide (posts_update R = pinboardUpdated w)) as [He|Hne].
      * destruct (posts_update R) as [t|] eqn:HR.
        -- by rewrite (handleClick_no_list R w t Hl (eq_sym He) HR).
        -- destruct (handleClick_refetch R w) as [-> | ->]; [by right | done..].
      * destruct (handleClick_refetch R w) as [-> | ->]; [by left | done..].
  - intros l Hl. split; [|split].
    + eexists _, _. rewrite (getLocalBookmarks_Some _ _ Hl).
      split; [reflexivity|]. exact (values_alloc (heap w) l).
    + by rewrite (updateBadgeCount_Some _ _ Hl).
    + by apply (handleClick_no_TypeError R w l).
Qed.

(** ** The theorems at concrete inputs *)

(** The stored time is older than the one the service reports, and the
    request for all bookmarks fails. *)
Lemma shouldFetchNew_differ_witness :
  let w := stored_world fifteen_bookmarks in
  (exists w',
     EventPage.shouldFetchNew later_remote w = (w', Fulfilled true) /\
     pinboardUpdated w' = Some "2017-11-18T08:00:00Z" /\
     pinboard w' = pinboard w /\
     setLog w' = setLog w ++ [SetPinboardUpdated "2017-11-18T08:00:00Z"]) /\
  (let w'' := (EventPage.updateData later_remote w).1 in
   pinboardUpdated w'' = Some "2017-11-18T08:00:00Z" /\
   filter writes_pinboardUpdated (setLog w'') =
     filter writes_pinboardUpdated (setLog w) ++
     [SetPinboardUpdated "2017-11-18T08:00:00Z"]).
Proof.
  intros w.
  apply (shouldFetchNew_differ later_remote w "2017-11-18T08:00:00Z").
  - reflexivity.
  - discriminate.
Defined.

(** The stored time is the one the service reports. *)
Lemma shouldFetchNew_same_witness :
  exists w',
    EventPage.shouldFetchNew agreeing_remote (stored_world fifteen_bookmarks) =
      (w', Fulfilled false) /\
    pinboard w' = pinboard (stored_world fifteen_bookmarks) /\
    pinboardUpdated w' = pinboardUpdated (stored_world fifteen_bookmarks) /\
    setLog w' = setLog (stored_world fifteen_bookmarks).
Proof.
  apply (shouldFetchNew_same agreeing_remote (stored_world fifteen_bookmarks)
           "2017-11-17T03:14:15Z").
  - reflexivity.
  - reflexivity.
Defined.

(** The badge of the stored list of 15 bookmarks. *)
Lemma updateBadgeCount_text_witness :
  let count := length (filter unread fifteen_bookmarks) in
  exists w',
    EventPage.updateBadgeCount (stored_world fifteen_bookmarks) = (w', Fulfilled tt) /\
    badgeColor w' = Some "#000" /\
    (0 < count ->
       badgeText w' = Some (String_of_number count) /\
       Nat.of_uint <$> NilZero.uint_of_string (String_of_number count) = Some count) /\
    (count = 0 -> badgeText w' = Some "").
Proof.
  apply (updateBadgeCount_text (stored_world fifteen_bookmarks) fifteen_bookmarks).
  reflexivity.
Defined.

(** The badge of the list of 15 reads "12"; the badge of a list without
    unread bookmarks is empty. *)
Example updateBadgeCount_twelve :
  badgeText (EventPage.updateBadgeCount (stored_world fifteen_bookmarks)).1 = Some "12" /\
  badgeText (EventPage.updateBadgeCount
               (stored_world [example_bookmark "r1" "Read 1" "no"])).1 = Some "".
Proof. vm_compute. split; reflexivity. Qed.

(** * Further properties of the page *)

(** ** Storing a list *)

(** A [set] of the key "pinboard" followed by the badge update. *)
Lemma updateBadgeCount_after_set l w :
  let w' := (EventPage.updateBadgeCount (storage_set_pinboard l w)).1 in
  pinboard w' = Some l /\ pinboardUpdated w' = pinboardUpdated w /\
  setLog w' = setLog w ++ [SetPinboard l] /\
  badgeText w' = Some (badge_of l) /\ badgeColor w' = Some "#000" /\
  tabs w' = tabs w /\ fetches w' = fetches w /\
  notifications w' = notifications w.
Proof.
  rewrite (updateBadgeCount_Some (storage_set_pinboard l w) l eq_refl).
  by cbn.
Qed.

(** [fetchNew] when the service sends the list. *)
Lemma fetchNew_stored R w data :
  posts_all R = Some data ->
  exists w',
    EventPage.fetchNew R w = (w', Pending) /\
    Part000.fetchNew R w = (w', Fulfilled tt) /\
    pinboard w' = Some data /\
    pinboardUpdated w' = pinboardUpdated w /\
    setLog w' = setLog w ++ [SetPinboard data] /\
    badgeText w' = Some (badge_of data) /\
    badgeColor w' = Some "#000" /\
    tabs w' = tabs w /\
    fetches w' = fetches w ++ [PostsAll] /\
    notifications w' = notifications w.
Proof.
  intros E.
  unfold EventPage.fetchNew, Part000.fetchNew, EventPage.setLocalBookmarks.
  rewrite E. cbn [alloc heap fetch with_heap fst]. rewrite values_alloc.
  change Part000.updateBadgeCount with EventPage.updateBadgeCount.
  eexists. split; [reflexivity|]. split; [reflexivity|].
  match goal with
  | |- context [EventPage.updateBadgeCount (storage_set_pinboard ?l ?x)] =>
      destruct (updateBadgeCount_after_set l x) as (-> & -> & -> & -> & -> & -> & -> & ->)
  end.
  by cbn.
Qed.

(** X1. [fetchNew], in both revisions. When the service answers with a list,
    the list is stored as it came with one [set], the time is not touched and
    the badge shows the unread count of the list; the two revisions leave the
    same world, but the promise of [src/eventPage.ts] is never settled while
    that of the other revision is fulfilled. When the request fails, both are
    rejected and only the request has happened. *)
Theorem fetchNew_outcomes (R : Remote) (w : World) :
  match posts_all R with
  | Some data =>
      exists w',
        EventPage.fetchNew R w = (w', Pending) /\
        Part000.fetchNew R w = (w', Fulfilled tt) /\
        pinboard w' = Some data /\
        pinboardUpdated w' = pinboardUpdated w /\
        setLog w' = setLog w ++ [SetPinboard data] /\
        badgeText w' = Some (badge_of data) /\
        badgeColor w' = Some "#000" /\
        fetches w' = fetches w ++ [PostsAll]
  | None =>
      EventPage.fetchNew R w = (fetch [PostsAll] w, Rejected FetchError) /\
      Part000.fetchNew R w = (fetch [PostsAll] w, Rejected FetchError)
  end.
Proof.
  destruct (posts_all R) as [data|] eqn:E.
  - destruct (fetchNew_stored R w data E)
      as (w' & E1 & E2 & Hp & Hu & Hl & Hb & Hc & _ & Hf & _).
    exists w'. by repeat split.
  - unfold EventPage.fetchNew, Part000.fetchNew. by rewrite E.
Qed.

(** ** The sync check, again *)

Lemma Part000_shouldFetchNew_eq R w :
  Part000.shouldFetchNew R w =
    match posts_update R with
    | None => (fetch [PostsUpdate] w, Rejected FetchError)
    | Some t =>
        if decide (pinboardUpdated w <> Some t)
        then (EventPage.setOldUpdatedTime t (fetch [PostsUpdate] w), Fulfilled true)
        else (fetch [PostsUpdate] w, Fulfilled false)
    end.
Proof.
  unfold Part000.shouldFetchNew.
  destruct (posts_update R) as [t|]; [|done].
  by destruct (decide (pinboardUpdated w <> Some t)).
Qed.

(** X2. The sync check of the other revision, which calls [resolve(true)] and
    then [resolve(false)] without returning in between, leaves the world and
    the answer of the sync check of [src/eventPage.ts]: the second [resolve]
    changes nothing. *)
Theorem shouldFetchNew_revisions (R : Remote) (w : World) :
  Part000.shouldFetchNew R w = EventPage.shouldFetchNew R w.
Proof. by rewrite shouldFetchNew_eq, Part000_shouldFetchNew_eq. Qed.

(** X3. Once a sync check has had the remote time, a second check that gets
    the same time answers [false] and writes nothing, whatever the first one
    answered. *)
Theorem shouldFetchNew_twice (R R' : Remote) (w : World) (t : string) :
  posts_update R = Some t ->
  posts_update R' = Some t ->
  let w1 := (EventPage.shouldFetchNew R w).1 in
  pinboardUpdated w1 = Some t /\
  EventPage.shouldFetchNew R' w1 = (fetch [PostsUpdate] w1, Fulfilled false).
Proof.
  intros HR HR' w1.
  assert (pinboardUpdated w1 = Some t) as Ht.
  { unfold w1. rewrite shouldFetchNew_eq, HR.
    destruct (decide (pinboardUpdated w <> Some t)) as [Hd|Hd]; cbn; [done|].
    by destruct (decide (pinboardUpdated w = Some t)). }
  split; [done|].
  rewrite shouldFetchNew_eq, HR', decide_False; [done|]. rewrite Ht. auto.
Qed.

Lemma shouldFetchNew_twice_witness :
  let w1 := (EventPage.shouldFetchNew later_remote (stored_world fifteen_bookmarks)).1 in
  pinboardUpdated w1 = Some "2017-11-18T08:00:00Z" /\
  EventPage.shouldFetchNew later_remote w1 = (fetch [PostsUpdate] w1, Fulfilled false).
Proof.
  apply (shouldFetchNew_twice later_remote later_remote
           (stored_world fifteen_bookmarks) "2017-11-18T08:00:00Z");
    reflexivity.
Defined.

(** X4. The time is stored before the list is asked for. If [updateData]
    finds a new remote time and the request for the list fails, the stored
    time is the new one and the stored list the old one; a later [updateData]
    that gets the same remote time is fulfilled without asking for the list,
    even if the service would now send it, and the stored list is still the
    old one. *)
Theorem updateData_failed_refetch_sticks
    (R R' : Remote) (w : World) (t : string) :
  posts_update R = Some t ->
  pinboardUpdated w <> Some t ->
  posts_all R = None ->
  posts_update R' = Some t ->
  let w1 := (EventPage.updateData R w).1 in
  (EventPage.updateData R w).2 = Rejected FetchError /\
  pinboardUpdated w1 = Some t /\ pinboard w1 = pinboard w /\
  EventPage.updateData R' w1 = (fetch [PostsUpdate] w1, Fulfilled tt) /\
  pinboard (EventPage.updateData R' w1).1 = pinboard w /\
  fetches (EventPage.updateData R' w1).1 =
    fetches w ++ [PostsUpdate; PostsAll; PostsUpdate].
Proof.
  intros HR Hne Hall HR' w1.
  assert (EventPage.updateData R w =
            (fetch [PostsAll] (EventPage.setOldUpdatedTime t (fetch [PostsUpdate] w)),
             Rejected FetchError)) as E.
  { unfold EventPage.updateData, await.
    rewrite shouldFetchNew_eq, HR, decide_True by done.
    unfold EventPage.fetchNew. by rewrite Hall. }
  unfold w1. rewrite E. cbn [fst snd].
  assert (forall x, pinboardUpdated x = Some t ->
            EventPage.updateData R' x = (fetch [PostsUpdate] x, Fulfilled tt)) as E'.
  { intros x Hx. unfold EventPage.updateData, await.
    rewrite shouldFetchNew_eq, HR', decide_False; [done|]. rewrite Hx. auto. }
  rewrite E' by done. cbn.
  repeat split; try done. by rewrite <- !app_assoc.
Qed.

Lemma updateData_failed_refetch_sticks_witness :
  let w := stored_world fifteen_bookmarks in
  let R' := mkRemote (Some "2017-11-18T08:00:00Z") (Some []) (fun _ _ => Some "done") in
  let w1 := (EventPage.updateData later_remote w).1 in
  (EventPage.updateData later_remote w).2 = Rejected FetchError /\
  pinboardUpdated w1 = Some "2017-11-18T08:00:00Z" /\ pinboard w1 = pinboard w /\
  EventPage.updateData R' w1 = (fetch [PostsUpdate] w1, Fulfilled tt) /\
  pinboard (EventPage.updateData R' w1).1 = pinboard w /\
  fetches (EventPage.updateData R' w1).1 =
    fetches w ++ [PostsUpdate; PostsAll; PostsUpdate].
Proof.
  intros w R'.
  apply (updateData_failed_refetch_sticks later_remote R' w "2017-11-18T08:00:00Z").
  - reflexivity.
  - discriminate.
  - reflexivity.
  - reflexivity.
Defined.

(** ** What a batch sends and what it stores *)

Lemma EventPage_markBookmarksRead_effects R B S w :
  allocated (heap w) S ->
  let w' := (EventPage.markBookmarksRead R B S w).1 in
  tabs w' = tabs w /\ notifications w' = notifications w /\
  pinboardUpdated w' = pinboardUpdated w /\
  fetches w' = fetches w ++ add_requests (values (heap w) S).
Proof.
  intros HS.
  destruct (all_responses R (add_requests (values (heap w) S))) as [codes|] eqn:Ec.
  2: { destruct (markBookmarksRead_no_answer R B S w HS Ec) as [-> _]. by cbn. }
  rewrite (EventPage_markBookmarksRead_run R B S w codes HS Ec). cbn zeta.
  destruct (markAllValues _ _).2; cbn [fst]; [|by cbn].
  match goal with
  | |- context [EventPage.setLocalBookmarks ?a ?x] =>
      destruct (setLocalBookmarks_frame a x) as (_ & -> & _ & -> & -> & -> & _)
  end.
  by cbn.
Qed.

Lemma Part000_markBookmarksRead_effects R B S w :
  allocated (heap w) S ->
  let w' := (Part000.markBookmarksRead R B S w).1 in
  tabs w' = tabs w /\ notifications w' = notifications w /\
  pinboardUpdated w' = pinboardUpdated w /\
  fetches w' = fetches w ++ add_requests (values (heap w) S).
Proof.
  intros HS.
  destruct (all_responses R (add_requests (values (heap w) S))) as [codes|] eqn:Ec.
  2: { destruct (markBookmarksRead_no_answer R B S w HS Ec) as [_ ->]. by cbn. }
  rewrite (Part000_markBookmarksRead_run R B S w codes HS Ec). cbn zeta.
  destruct (decide _); [|by cbn].
  destruct (markAllValues _ _).2; cbn [fst]; [|by cbn].
  change Part000.updateBadgeCount with EventPage.updateBadgeCount.
  match goal with
  | |- context [EventPage.updateBadgeCount (storage_set_pinboard ?l ?x)] =>
      destruct (updateBadgeCount_after_set l x) as (_ & -> & _ & _ & _ & -> & -> & ->)
  end.
  by cbn.
Qed.

(** X5. Whatever the service answers, a batch sends exactly one mark-read
    request for each bookmark to mark, in their order, each with the [href]
    and the [description] of its bookmark and [toread=no]; it opens no tab,
    posts no notification and leaves the stored time alone. This holds in
    both revisions and for every outcome of the promise. *)
Theorem markBookmarksRead_requests
    (R : Remote) (B S : list ref) (w : World) :
  allocated (heap w) S ->
  let sent := (fun b => PostsAdd (href b) (description b) "no") <$> values (heap w) S in
  let w1 := (EventPage.markBookmarksRead R B S w).1 in
  let w2 := (Part000.markBookmarksRead R B S w).1 in
  length sent = length S /\
  (fetches w1 = fetches w ++ sent /\ fetches w2 = fetches w ++ sent) /\
  (tabs w1 = tabs w /\ tabs w2 = tabs w) /\
  (notifications w1 = notifications w /\ notifications w2 = notifications w) /\
  (pinboardUpdated w1 = pinboardUpdated w /\ pinboardUpdated w2 = pinboardUpdated w).
Proof.
  intros HS sent w1 w2.
  destruct (EventPage_markBookmarksRead_effects R B S w HS) as (T1 & N1 & U1 & F1).
  destruct (Part000_markBookmarksRead_effects R B S w HS) as (T2 & N2 & U2 & F2).
  split; [unfold sent; by rewrite length_fmap, length_values|].
  by repeat split.
Qed.

Lemma markBookmarksRead_requests_witness :
  let w := mkWorld fifteen_bookmarks (Some fifteen_bookmarks) None [] None None [] [] [] in
  let sent := (fun b => PostsAdd (href b) (description b) "no") <$> values (heap w) [1; 2] in
  let w1 := (EventPage.markBookmarksRead later_remote (seq 0 15) [1; 2] w).1 in
  let w2 := (Part000.markBookmarksRead later_remote (seq 0 15) [1; 2] w).1 in
  length sent = length [1; 2] /\
  (fetches w1 = fetches w ++ sent /\ fetches w2 = fetches w ++ sent) /\
  (tabs w1 = tabs w /\ tabs w2 = tabs w) /\
  (notifications w1 = notifications w /\ notifications w2 = notifications w) /\
  (pinboardUpdated w1 = pinboardUpdated w /\ pinboardUpdated w2 = pinboardUpdated w).
Proof.
  intros w.
  apply (markBookmarksRead_requests later_remote (seq 0 15) [1; 2] w).
  unfold allocated. repeat constructor; simpl; lia.
Defined.

(** A round, and so the whole loop, leaves every entry as it was or with
    [toread] set to "no". *)
Lemma marked_or_same_refl b : marked_or_same b b.
Proof. unfold marked_or_same. auto. Qed.

Lemma marked_or_same_trans b1 b2 b3 :
  marked_or_same b1 b2 -> marked_or_same b2 b3 -> marked_or_same b1 b3.
Proof.
  unfold marked_or_same. intros (H1 & D1 & T1) (H2 & D2 & T2).
  split; [congruence|]. split; [congruence|].
  destruct T2 as [T2|T2]; [|by right]. rewrite T2. exact T1.
Qed.

Lemma markAllValues_shape ds vs :
  Forall2 marked_or_same vs (markAllValues vs ds).1.
Proof.
  revert vs. induction ds as [|d ds IH]; intros vs.
  - simpl. apply Forall_Forall2_diag, Forall_forall. intros b _.
    apply marked_or_same_refl.
  - simpl. destruct (markOneValue vs d) as [vs'|] eqn:E.
    2: { simpl. apply Forall_Forall2_diag, Forall_forall. intros b _.
         apply marked_or_same_refl. }
    apply markOneValue_Some in E as (i & o & Ei & Eo & ->).
    assert (Forall2 marked_or_same vs (<[i := set_toread "no" o]> vs)) as Hstep.
    { apply Forall2_same_length_lookup_2; [by rewrite length_insert|].
      intros j x y Hx Hy. destruct (decide (i = j)) as [->|Hne].
      - rewrite list_lookup_insert_eq in Hy by by eapply lookup_lt_Some.
        injection Hy as <-. rewrite Eo in Hx. injection Hx as <-.
        unfold marked_or_same. simpl. auto.
      - rewrite list_lookup_insert_ne in Hy by done. rewrite Hx in Hy.
        injection Hy as <-. apply marked_or_same_refl. }
    specialize (IH (<[i := set_toread "no" o]> vs)).
    apply Forall2_same_length_lookup_2.
    + rewrite (Forall2_length _ _ _ Hstep). by apply Forall2_length in IH.
    + intros j x z Hx Hz.
      destruct (Forall2_lookup_l _ _ _ _ _ Hstep Hx) as (y & Hy & Hxy).
      eapply marked_or_same_trans; [exact Hxy|].
      exact (Forall2_lookup_lr _ _ _ _ _ _ IH Hy Hz).
Qed.

Lemma marked_or_same_unread vs vs' :
  Forall2 marked_or_same vs vs' ->
  length (filter unread vs') <= length (filter unread vs).
Proof.
  induction 1 as [|b b' vs vs' (_ & _ & Ht) _ IH]; [done|].
  rewrite !filter_cons.
  destruct (decide (unread b')) as [Hu'|Hu']; destruct (decide (unread b)) as [Hu|Hu];
    simpl; try lia.
  exfalso. apply Hu. unfold unread in *. destruct Ht as [Ht|Ht]; congruence.
Qed.

Lemma stores_marked_run w B w' ds :
  pinboard w' = Some (markAllValues (values (heap w) B) ds).1 ->
  setLog w' = setLog w ++ [SetPinboard (markAllValues (values (heap w) B) ds).1] ->
  stores_marked w B w'.
Proof.
  intros Hp Hl. right. eexists. split; [exact Hp|].
  split; [exact Hl|]. split; [apply markAllValues_shape|].
  apply marked_or_same_unread, markAllValues_shape.
Qed.

(** X6. A batch never reorders the stored list, never changes an [href] or a
    [description], and never makes a bookmark unread. Whatever its arguments,
    the answers and the outcome, in both revisions it either leaves the key
    "pinboard" alone or writes it once, with the values of [bookmarks] in
    their order, each as it was or with [toread] set to "no"; the number of
    unread bookmarks it stores is at most that of [bookmarks]. *)
Theorem markBookmarksRead_stores_marked
    (R : Remote) (B S : list ref) (w : World) :
  stores_marked w B (EventPage.markBookmarksRead R B S w).1 /\
  stores_marked w B (Part000.markBookmarksRead R B S w).1.
Proof.
  destruct (mapM (request_of (heap w)) S) as [requests|] eqn:Ereq.
  2: { destruct (markBookmarksRead_unallocated R B S w Ereq) as [-> ->].
       split; by left. }
  pose proof (request_of_allocated _ _ _ Ereq) as HS.
  destruct (all_responses R (add_requests (values (heap w) S))) as [codes|] eqn:Ec.
  2: { destruct (markBookmarksRead_no_answer R B S w HS Ec) as [-> ->].
       split; by left. }
  rewrite (EventPage_markBookmarksRead_run R B S w codes HS Ec).
  rewrite (Part000_markBookmarksRead_run R B S w codes HS Ec). cbn zeta.
  set (ds := description <$> values (heap w) S).
  destruct (markAllValues (values (heap w) B) ds).2 eqn:Hok.
  - assert (forall x, pinboard x = Some (markAllValues (values (heap w) B) ds).1 ->
              setLog x = setLog w ++ [SetPinboard (markAllValues (values (heap w) B) ds).1] ->
              stores_marked w B x) as Hst
      by (intros x; apply stores_marked_run).
    split.
    + cbn [fst].
      match goal with
      | |- context [EventPage.setLocalBookmarks ?a ?x] =>
          destruct (setLocalBookmarks_frame a x) as (Hp & _ & Hl & _)
      end.
      apply Hst; [rewrite Hp | rewrite Hl];
        cbn [heap with_heap setLog fetch]; by rewrite values_clone_refs.
    + destruct (decide _); [|by left]. cbn [fst].
      change Part000.updateBadgeCount with EventPage.updateBadgeCount.
      match goal with
      | |- context [EventPage.updateBadgeCount (storage_set_pinboard ?l ?x)] =>
          destruct (updateBadgeCount_after_set l x) as (Hp & _ & Hl & _)
      end.
      apply Hst; [rewrite Hp | rewrite Hl];
        cbn [heap with_heap setLog fetch]; by rewrite values_clone_refs.
  - split; [by left|]. destruct (decide _); by left.
Qed.

(** The loop reaches its end only if every description to mark occurs in the
    list. *)
Lemma markAllValues_ok_inv ds vs :
  (markAllValues vs ds).2 = true -> Forall (fun d => d ∈ description <$> vs) ds.
Proof.
  revert vs. induction ds as [|d ds IH]; intros vs Hok; [constructor|].
  simpl in Hok. destruct (markOneValue vs d) as [vs'|] eqn:E; [|done].
  apply markOneValue_Some in E as (i & o & Ei & Eo & ->).
  apply findIndex_Some in Ei as (x & Hx & Hd & _).
  assert (description <$> <[i := set_toread "no" o]> vs = description <$> vs) as Hsame.
  { rewrite list_fmap_insert. simpl. apply list_insert_id.
    by rewrite list_lookup_fmap, Eo. }
  constructor.
  - apply list_elem_of_fmap. exists x. split; [done|].
    by eapply list_elem_of_lookup_2.
  - specialize (IH _ Hok). by rewrite Hsame in IH.
Qed.

(** X7. A bookmark to mark whose description no bookmark of the list has
    makes [findIndex] return -1 and the assignment throw. Then neither
    revision writes the storage. [src/eventPage.ts] is rejected, with the
    TypeError when every answer was "done" and with the answers otherwise;
    the other revision only logs the exception, so that its promise is never
    settled when every answer was "done". *)
Theorem markBookmarksRead_missing_description
    (R : Remote) (B S : list ref) (w : World) (codes : list string) :
  allocated (heap w) S ->
  all_responses R (add_requests (values (heap w) S)) = Some codes ->
  Exists (fun d => d ∉ description <$> values (heap w) B)
         (description <$> values (heap w) S) ->
  let r1 := EventPage.markBookmarksRead R B S w in
  let r2 := Part000.markBookmarksRead R B S w in
  (pinboard r1.1 = pinboard w /\ setLog r1.1 = setLog w) /\
  (pinboard r2.1 = pinboard w /\ setLog r2.1 = setLog w) /\
  r1.2 = (if decide (length (filter failed_code codes) = 0)
          then Rejected TypeError else Rejected (BatchError codes)) /\
  r2.2 = (if decide (length (filter failed_code codes) = 0)
          then Pending else Rejected NoReason).
Proof.
  intros HS Ec Hmiss r1 r2. unfold r1, r2.
  rewrite (EventPage_markBookmarksRead_run R B S w codes HS Ec).
  rewrite (Part000_markBookmarksRead_run R B S w codes HS Ec). cbn zeta.
  destruct (markAllValues _ _).2 eqn:Hok.
  { apply markAllValues_ok_inv in Hok.
    apply Exists_exists in Hmiss as (d & Hd & Hnd).
    rewrite Forall_forall in Hok. by destruct (Hnd (Hok d Hd)). }
  by destruct (decide _).
Qed.

Lemma markBookmarksRead_missing_description_witness :
  let b0 := example_bookmark "a" "A" "yes" in
  let b1 := example_bookmark "b" "B" "yes" in
  let w := mkWorld [b0; b1] (Some [b0]) None [] None None [] [] [] in
  let r1 := EventPage.markBookmarksRead agreeing_remote [0] [1] w in
  let r2 := Part000.markBookmarksRead agreeing_remote [0] [1] w in
  (pinboard r1.1 = pinboard w /\ setLog r1.1 = setLog w) /\
  (pinboard r2.1 = pinboard w /\ setLog r2.1 = setLog w) /\
  r1.2 = (if decide (length (filter failed_code ["done"]) = 0)
          then Rejected TypeError else Rejected (BatchError ["done"])) /\
  r2.2 = (if decide (length (filter failed_code ["done"]) = 0)
          then Pending else Rejected NoReason).
Proof.
  intros b0 b1 w.
  apply (markBookmarksRead_missing_description agreeing_remote [0] [1] w ["done"]).
  - unfold allocated. repeat constructor.
  - reflexivity.
  - apply Exists_cons_hd. vm_compute. intros H.
    apply list_elem_of_singleton in H. discriminate H.
Defined.

(** X8. In [src/eventPage.ts] the world a batch leaves does not depend on the
    result codes: two services that both answer every request of the batch
    leave the same storage, badge and heap, whatever their codes are. *)
Theorem markBookmarksRead_ignores_codes
    (R1 R2 : Remote) (B S : list ref) (w : World) (codes1 codes2 : list string) :
  allocated (heap w) S ->
  all_responses R1 (add_requests (values (heap w) S)) = Some codes1 ->
  all_responses R2 (add_requests (values (heap w) S)) = Some codes2 ->
  (EventPage.markBookmarksRead R1 B S w).1 = (EventPage.markBookmarksRead R2 B S w).1.
Proof.
  intros HS E1 E2.
  rewrite (EventPage_markBookmarksRead_run R1 B S w codes1 HS E1).
  rewrite (EventPage_markBookmarksRead_run R2 B S w codes2 HS E2). cbn zeta.
  by destruct (markAllValues _ _).2.
Qed.

Lemma markBookmarksRead_ignores_codes_witness :
  let w := mkWorld fifteen_bookmarks (Some fifteen_bookmarks) None [] None None [] [] [] in
  let R2 := mkRemote None None (fun _ _ => Some "something went wrong") in
  (EventPage.markBookmarksRead agreeing_remote (seq 0 15) [1; 2] w).1 =
  (EventPage.markBookmarksRead R2 (seq 0 15) [1; 2] w).1.
Proof.
  intros w R2.
  apply (markBookmarksRead_ignores_codes agreeing_remote R2 (seq 0 15) [1; 2] w
           ["done"; "done"] ["something went wrong"; "something went wrong"]).
  - unfold allocated. repeat constructor; simpl; lia.
  - reflexivity.
  - reflexivity.
Defined.

(** X9. When every answer is "done" the two revisions leave the same world,
    and for a selection among the bookmarks of the list both are fulfilled. *)
Theorem markBookmarksRead_revisions_agree
    (R : Remote) (B S : list ref) (w : World) (codes : list string) :
  allocated (heap w) B ->
  S ⊆ B ->
  all_responses R (add_requests (values (heap w) S)) = Some codes ->
  Forall (fun c => c = "done") codes ->
  EventPage.markBookmarksRead R B S w = Part000.markBookmarksRead R B S w /\
  (EventPage.markBookmarksRead R B S w).2 = Fulfilled tt.
Proof.
  intros HB Hsub Ec Hdone.
  pose proof (allocated_subseteq _ _ _ HB Hsub) as HS.
  destruct (marked_values _ _ _ HB Hsub) as (Hok & _).
  rewrite (EventPage_markBookmarksRead_run R B S w codes HS Ec).
  rewrite (Part000_markBookmarksRead_run R B S w codes HS Ec). cbn zeta.
  rewrite Hok.
  destruct (decide (length (filter failed_code codes) = 0)) as [Hz|Hnz].
  - split; reflexivity.
  - destruct Hnz. by apply all_done_no_failure.
Qed.

Lemma markBookmarksRead_revisions_agree_witness :
  let w := mkWorld fifteen_bookmarks (Some fifteen_bookmarks) None [] None None [] [] [] in
  EventPage.markBookmarksRead agreeing_remote (seq 0 15) [1; 2] w =
    Part000.markBookmarksRead agreeing_remote (seq 0 15) [1; 2] w /\
  (EventPage.markBookmarksRead agreeing_remote (seq 0 15) [1; 2] w).2 = Fulfilled tt.
Proof.
  intros w.
  apply (markBookmarksRead_revisions_agree agreeing_remote (seq 0 15) [1; 2] w
           ["done"; "done"]).
  - unfold allocated. repeat constructor; simpl; lia.
  - intros r Hr. apply elem_of_seq. simpl.
    apply elem_of_cons in Hr as [->|Hr]; [lia|].
    apply list_elem_of_singleton in Hr as ->. lia.
  - reflexivity.
  - repeat constructor.
Defined.

(** ** Clicks *)

(** The click of the other revision, once its sync check and refetch are
    fulfilled in a world [x] with a stored list. *)
Lemma Part000_handleClick_after R w x l :
  Part000.interval R w = (x, Fulfilled tt) ->
  pinboard x = Some l ->
  Part000.handleClick R w =
    if decide (length (filter unread l) = 0)
    then (with_heap (heap x ++ l) x, Fulfilled tt)
    else Part000.markBookmarksRead R (click_bookmarks x l) (click_selection x l)
           (body_world x l).
Proof.
  intros Hi Hl. unfold Part000.handleClick, Part000.interval, await in *.
  destruct (Part000.shouldFetchNew R w) as [w1 [b| |]]; try discriminate Hi.
  rewrite Hi. unfold Part000.getLocalData. rewrite Hl.
  cbn [alloc heap with_heap sendNotification].
  rewrite length_filterUnread, values_alloc.
  destruct (decide (length (filter unread l) = 0)) as [Hz|Hnz]; [done|].
  fold (click_bookmarks x l). fold (click_selection x l).
  rewrite (mapM_lookup_values _ _ _ (click_selection_allocated x l)).
  rewrite click_selection_values.
  replace (length (click_selection x l))
    with (length (take TAB_COUNT (filter unread l)))
    by (rewrite <- (click_selection_values x l), length_values;
        [done | apply click_selection_allocated]).
  reflexivity.
Qed.

Lemma Part000_interval_same R w t :
  pinboardUpdated w = Some t -> posts_update R = Some t ->
  Part000.interval R w = (fetch [PostsUpdate] w, Fulfilled tt).
Proof.
  intros Ht HR. unfold Part000.interval, await.
  rewrite Part000_shouldFetchNew_eq, HR, decide_False; [done|].
  rewrite Ht. auto.
Qed.

(** X10. A click on a stored list without unread bookmarks, when the stored
    time is the remote one: [src/eventPage.ts] posts the notification "There
    aren't any unread bookmarks to open!" and the other revision posts none;
    in both the click is fulfilled, and apart from the request for the time
    nothing is sent, opened or stored. *)
Theorem handleClick_nothing_unread
    (R : Remote) (w : World) (l : list Bookmark) (t : string) :
  pinboard w = Some l ->
  filter unread l = [] ->
  pinboardUpdated w = Some t ->
  posts_update R = Some t ->
  EventPage.handleClick R w =
    (sendNotification "There aren't any unread bookmarks to open!"
       (with_heap (heap w ++ l) (fetch [PostsUpdate] w)), Fulfilled tt) /\
  Part000.handleClick R w =
    (with_heap (heap w ++ l) (fetch [PostsUpdate] w), Fulfilled tt).
Proof.
  intros Hl Hu Ht HR. split.
  - rewrite (handleClick_run R w l t Hl Ht HR), Hu. reflexivity.
  - rewrite (Part000_handleClick_after R w _ l (Part000_interval_same R w t Ht HR) Hl).
    rewrite Hu. reflexivity.
Qed.

Lemma handleClick_nothing_unread_witness :
  let l := [example_bookmark "r1" "Read 1" "no"; example_bookmark "r2" "Read 2" "no"] in
  let w := stored_world l in
  EventPage.handleClick agreeing_remote w =
    (sendNotification "There aren't any unread bookmarks to open!"
       (with_heap (heap w ++ l) (fetch [PostsUpdate] w)), Fulfilled tt) /\
  Part000.handleClick agreeing_remote w =
    (with_heap (heap w ++ l) (fetch [PostsUpdate] w), Fulfilled tt).
Proof.
  intros l w.
  apply (handleClick_nothing_unread agreeing_remote w l "2017-11-17T03:14:15Z");
    reflexivity.
Defined.

(** The world [handleClick] leaves when the stored time is not the remote one
    or the remote one cannot be had. *)
Lemma handleClick_refetch_world R w :
  posts_update R <> pinboardUpdated w \/ posts_update R = None ->
  let w' := (EventPage.handleClick R w).1 in
  tabs w' = tabs w /\ notifications w' = notifications w /\
  (fetches w' = fetches w ++ [PostsUpdate] \/
   fetches w' = fetches w ++ [PostsUpdate; PostsAll]).
Proof.
  intros Hne. unfold EventPage.handleClick, EventPage.updateData, await.
  rewrite shouldFetchNew_eq. destruct (posts_update R) as [t|]; [|cbn; auto].
  destruct (decide (pinboardUpdated w <> Some t)) as [Hd|Hd].
  - unfold EventPage.fetchNew. destruct (posts_all R) as [data|].
    + cbn [alloc fst].
      match goal with
      | |- context [EventPage.setLocalBookmarks ?a ?x] =>
          destruct (setLocalBookmarks_frame a x) as (_ & _ & _ & -> & -> & -> & _)
      end.
      cbn. rewrite <- app_assoc. auto.
    + cbn. rewrite <- app_assoc. auto.
  - destruct Hne as [Hne|Hne]; [|done]. destruct Hd. congruence.
Qed.

(** X11. In [src/eventPage.ts] a click that finds a new remote time, or cannot
    get the remote time, opens no tab, posts no notification and sends no
    mark-read request, and its promise is never fulfilled: [handleClick]
    waits for [fetchNew], whose promise is rejected or never settled. *)
Theorem handleClick_stops_at_refetch (R : Remote) (w : World) :
  posts_update R <> pinboardUpdated w \/ posts_update R = None ->
  let r := EventPage.handleClick R w in
  tabs r.1 = tabs w /\
  notifications r.1 = notifications w /\
  filter is_add (fetches r.1) = filter is_add (fetches w) /\
  (r.2 = Rejected FetchError \/ r.2 = Pending).
Proof.
  intros Hne r. unfold r.
  destruct (handleClick_refetch_world R w Hne) as (Ht & Hn & Hf).
  split; [done|]. split; [done|]. split.
  - destruct Hf as [-> | ->]; rewrite filter_app; cbn; by rewrite app_nil_r.
  - by apply handleClick_refetch.
Qed.

Lemma handleClick_stops_at_refetch_witness :
  let R := mkRemote (Some "2017-11-18T08:00:00Z") (Some fifteen_bookmarks)
             (fun _ _ => Some "done") in
  let w := stored_world fifteen_bookmarks in
  let r := EventPage.handleClick R w in
  tabs r.1 = tabs w /\
  notifications r.1 = notifications w /\
  filter is_add (fetches r.1) = filter is_add (fetches w) /\
  (r.2 = Rejected FetchError \/ r.2 = Pending).
Proof.
  intros R w.
  apply (handleClick_stops_at_refetch R w). left. discriminate.
Defined.

(** X12. In the other revision [fetchNew] resolves, so a click that finds a
    new remote time goes on with the list the service has just sent: it opens
    background tabs for the first ten unread bookmarks of that list and sends
    their mark-read requests after the two requests of the refetch, whatever
    list was stored before and whatever the mark-read requests are answered. *)
Theorem Part000_handleClick_refetched
    (R : Remote) (w : World) (t : string) (data : list Bookmark) :
  posts_update R = Some t ->
  pinboardUpdated w <> Some t ->
  posts_all R = Some data ->
  filter unread data <> [] ->
  let w' := (Part000.handleClick R w).1 in
  tabs w' = tabs w ++ background_tabs (take TAB_COUNT (filter unread data)) /\
  fetches w' =
    fetches w ++ [PostsUpdate; PostsAll] ++
    add_requests (take TAB_COUNT (filter unread data)) /\
  pinboardUpdated w' = Some t.
Proof.
  intros HR Hne Hall Hu.
  destruct (fetchNew_stored R
              (EventPage.setOldUpdatedTime t (fetch [PostsUpdate] w)) data Hall)
    as (x & _ & Ex & Hp & Ht & _ & _ & _ & Htabs & Hf & _).
  assert (Part000.interval R w = (x, Fulfilled tt)) as Hi.
  { unfold Part000.interval, await.
    by rewrite Part000_shouldFetchNew_eq, HR, decide_True. }
  rewrite (Part000_handleClick_after R w x data Hi Hp).
  rewrite decide_False by (intros Hz; by apply length_zero_iff_nil in Hz).
  pose proof (click_selection_allocated x data) as HS.
  destruct (Part000_markBookmarksRead_effects R (click_bookmarks x data)
              (click_selection x data) (body_world x data) HS)
    as (T & _ & U & F).
  cbn zeta. rewrite T, U, F.
  change (heap (body_world x data)) with (heap x ++ data).
  rewrite click_selection_values.
  cbn [body_world tabs fetches pinboardUpdated tabs_create sendNotification with_heap].
  rewrite Htabs, Hf, Ht. cbn. by rewrite <- !app_assoc.
Qed.

Lemma Part000_handleClick_refetched_witness :
  let R := mkRemote (Some "2017-11-18T08:00:00Z") (Some fifteen_bookmarks)
             (fun _ _ => Some "done") in
  let w := stored_world [] in
  let w' := (Part000.handleClick R w).1 in
  tabs w' = tabs w ++ background_tabs (take TAB_COUNT (filter unread fifteen_bookmarks)) /\
  fetches w' =
    fetches w ++ [PostsUpdate; PostsAll] ++
    add_requests (take TAB_COUNT (filter unread fifteen_bookmarks)) /\
  pinboardUpdated w' = Some "2017-11-18T08:00:00Z".
Proof.
  intros R w.
  apply (Part000_handleClick_refetched R w "2017-11-18T08:00:00Z" fifteen_bookmarks).
  - reflexivity.
  - discriminate.
  - reflexivity.
  - discriminate.
Defined.

Lemma filter_is_add_requests vs : filter is_add (add_requests vs) = add_requests vs.
Proof.
  apply filter_all, Forall_forall. intros q Hq.
  unfold add_requests in Hq. apply list_elem_of_fmap in Hq as (b & -> & _). exact I.
Qed.

(** X13. Whatever is stored and whatever the service answers, one click of
    [src/eventPage.ts] opens at most [TAB_COUNT] tabs, none of them active,
    and sends exactly one mark-read request for each tab it opens. *)
Theorem handleClick_tab_bound (R : Remote) (w : World) :
  exists ts qs,
    tabs (EventPage.handleClick R w).1 = tabs w ++ ts /\
    length ts <= TAB_COUNT /\
    Forall (fun tab => active tab = false) ts /\
    fetches (EventPage.handleClick R w).1 = fetches w ++ qs /\
    length (filter is_add qs) = length ts.
Proof.
  destruct (decide (posts_update R = pinboardUpdated w)) as [He|Hne].
  2: { destruct (handleClick_refetch_world R w (or_introl Hne)) as (Ht & _ & Hf).
       destruct Hf as [Hf|Hf];
         [exists [], [PostsUpdate] | exists [], [PostsUpdate; PostsAll]];
         rewrite Ht, Hf, app_nil_r; cbn; repeat split; auto; lia. }
  destruct (posts_update R) as [t|] eqn:HR.
  2: { destruct (handleClick_refetch_world R w (or_intror HR)) as (Ht & _ & Hf).
       destruct Hf as [Hf|Hf];
         [exists [], [PostsUpdate] | exists [], [PostsUpdate; PostsAll]];
         rewrite Ht, Hf, app_nil_r; cbn; repeat split; auto; lia. }
  symmetry in He. destruct (pinboard w) as [l|] eqn:Hl.
  2: { rewrite (handleClick_no_list R w t Hl He HR). exists [], [PostsUpdate].
       cbn. rewrite app_nil_r. repeat split; auto; lia. }
  rewrite (handleClick_run R w l t Hl He HR).
  destruct (decide (length (filter unread l) = 0)) as [Hz|Hnz].
  { exists [], [PostsUpdate]. cbn. rewrite app_nil_r. repeat split; auto; lia. }
  pose proof (click_selection_allocated w l) as HS.
  destruct (EventPage_markBookmarksRead_effects R (click_bookmarks w l)
              (click_selection w l) (click_world w l) HS)
    as (T & _ & _ & F).
  exists (background_tabs (take TAB_COUNT (filter unread l))),
         (PostsUpdate :: add_requests (take TAB_COUNT (filter unread l))).
  rewrite T, F. change (heap (click_world w l)) with (heap w ++ l).
  rewrite click_selection_values. split; [reflexivity|]. split.
  { unfold background_tabs. rewrite length_fmap, length_take. lia. }
  split.
  { unfold background_tabs. apply Forall_fmap, Forall_forall. by intros b _. }
  split.
  { cbn. by rewrite <- app_assoc. }
  rewrite filter_cons_False by (simpl; tauto).
  rewrite filter_is_add_requests. unfold add_requests, background_tabs.
  by rewrite !length_fmap.
Qed.

(** ** Clicks in a row *)

Lemma all_responses_done R requests :
  (forall k q, posts_add R k q = Some "done") ->
  all_responses R requests = Some (replicate (length requests) "done").
Proof.
  intros Hd. unfold all_responses.
  assert (forall f : nat -> Request -> option string,
            (forall k q, f k q = Some "done") ->
            mapM id (imap f requests) = Some (replicate (length requests) "done")) as H.
  { induction requests as [|q qs IH]; intros f Hf; [done|].
    rewrite imap_cons. cbn. rewrite Hf. cbn.
    rewrite (IH (f ∘ S)) by (intros k q'; apply Hf). done. }
  by apply H.
Qed.

Lemma marked_or_same_descriptions vs vs' :
  Forall2 marked_or_same vs vs' -> description <$> vs' = description <$> vs.
Proof.
  induction 1 as [|b b' vs vs' (_ & Hd & _) _ IH]; [done|].
  cbn. by rewrite Hd, IH.
Qed.

(** One click when the stored time is the remote one, the descriptions are
    pairwise distinct and every answer is "done". *)
Lemma handleClick_step R w l t :
  pinboard w = Some l ->
  NoDup (description <$> l) ->
  pinboardUpdated w = Some t ->
  posts_update R = Some t ->
  (forall k q, posts_add R k q = Some "done") ->
  let w' := (EventPage.handleClick R w).1 in
  tabs w' = tabs w ++ background_tabs (take TAB_COUNT (filter unread l)) /\
  pinboardUpdated w' = Some t /\
  exists l',
    pinboard w' = Some l' /\
    description <$> l' = description <$> l /\
    filter unread l' = drop TAB_COUNT (filter unread l).
Proof.
  intros Hl Hnd Ht HR Hd.
  destruct (decide (length (filter unread l) = 0)) as [Hz|Hnz].
  - rewrite (handleClick_run R w l t Hl Ht HR), decide_True by done.
    apply length_zero_iff_nil in Hz. rewrite Hz. cbn.
    rewrite app_nil_r. repeat split; try done.
    exists l. by rewrite Hz.
  - pose proof (all_responses_done R
                  (add_requests (take TAB_COUNT (filter unread l))) Hd) as Ec.
    destruct (handleClick_marks R w l t _ Hl Ht HR Hnz Ec
                (Forall_replicate _ _ _ eq_refl) Hnd)
      as (w' & stored & E & Htabs & _ & Hp & _ & Hfu).
    pose proof E as E'.
    rewrite (handleClick_run R w l t Hl Ht HR), decide_False in E' by done.
    pose proof (click_selection_allocated w l) as HS.
    destruct (EventPage_markBookmarksRead_effects R (click_bookmarks w l)
                (click_selection w l) (click_world w l) HS) as (_ & _ & U & _).
    destruct (EventPage_markBookmarksRead_fulfilled R (click_bookmarks w l)
                (click_selection w l) (click_world w l) w' HS E')
      as (_ & Hp' & _).
    rewrite E' in U. rewrite E. cbn [fst] in *.
    split; [done|]. split; [by rewrite U|].
    exists stored. split; [done|]. split; [|done].
    rewrite Hp in Hp'. injection Hp' as ->.
    change (heap (click_world w l)) with (heap w ++ l).
    rewrite click_bookmarks_values.
    apply marked_or_same_descriptions, markAllValues_shape.
Qed.

Lemma clicks_S R k w :
  clicks R (S k) w = (EventPage.handleClick R (clicks R k w)).1.
Proof. reflexivity. Qed.

(** X14. Clicks walk through the unread bookmarks ten at a time. The stored
    descriptions are pairwise distinct, the stored time is the remote one and
    every mark-read request is answered "done". Then after [k] clicks the
    tabs opened are those of the first [10 k] unread bookmarks of the stored
    list, in list order and each once, and the bookmarks still stored as
    unread are the remaining ones. *)
Theorem clicks_walk (R : Remote) (w : World) (l : list Bookmark) (t : string) (k : nat) :
  pinboard w = Some l ->
  NoDup (description <$> l) ->
  pinboardUpdated w = Some t ->
  posts_update R = Some t ->
  (forall i q, posts_add R i q = Some "done") ->
  tabs (clicks R k w) =
    tabs w ++ background_tabs (take (k * TAB_COUNT) (filter unread l)) /\
  exists l',
    pinboard (clicks R k w) = Some l' /\
    filter unread l' = drop (k * TAB_COUNT) (filter unread l).
Proof.
  intros Hl Hnd Ht HR Hd.
  assert (tabs (clicks R k w) =
            tabs w ++ background_tabs (take (k * TAB_COUNT) (filter unread l)) /\
          pinboardUpdated (clicks R k w) = Some t /\
          exists l',
            pinboard (clicks R k w) = Some l' /\
            description <$> l' = description <$> l /\
            filter unread l' = drop (k * TAB_COUNT) (filter unread l)) as H.
  { induction k as [|k (IHt & IHu & l' & IHp & IHd & IHf)].
    - cbn. rewrite app_nil_r. split; [done|]. split; [done|]. by exists l.
    - rewrite clicks_S. rewrite <- IHd in Hnd.
      destruct (handleClick_step R (clicks R k w) l' t IHp Hnd IHu HR Hd)
        as (St & Su & l'' & Sp & Sd & Sf).
      split.
      + rewrite St, IHt, IHf, <- app_assoc. f_equal.
        unfold background_tabs. rewrite <- fmap_app, take_take_drop.
        do 2 f_equal. lia.
      + split; [done|]. exists l''. split; [done|]. split; [congruence|].
        rewrite Sf, IHf, drop_drop. f_equal. lia. }
  destruct H as (Htabs & _ & l' & Hp & _ & Hf). split; [done|]. by exists l'.
Qed.

Lemma clicks_walk_witness :
  tabs (clicks agreeing_remote 2 (stored_world fifteen_bookmarks)) =
    tabs (stored_world fifteen_bookmarks) ++
    background_tabs (take (2 * TAB_COUNT) (filter unread fifteen_bookmarks)) /\
  exists l',
    pinboard (clicks agreeing_remote 2 (stored_world fifteen_bookmarks)) = Some l' /\
    filter unread l' = drop (2 * TAB_COUNT) (filter unread fifteen_bookmarks).
Proof.
  apply (clicks_walk agreeing_remote (stored_world fifteen_bookmarks)
           fifteen_bookmarks "2017-11-17T03:14:15Z" 2).
  - reflexivity.
  - refine (bool_decide_unpack _ _). vm_compute. exact I.
  - reflexivity.
  - reflexivity.
  - reflexivity.
Defined.

(** ** The badge along a run *)

Lemma badge_shows_stored_same w w' :
  pinboard w' = pinboard w ->
  badgeText w' = badgeText w ->
  badgeColor w' = badgeColor w ->
  badge_shows_stored w -> badge_shows_stored w'.
Proof.
  intros Hp Ht Hc Hw l Hl. rewrite Ht, Hc. apply Hw. by rewrite <- Hp.
Qed.

Lemma updateBadgeCount_badge w :
  badge_shows_stored (EventPage.updateBadgeCount w).1.
Proof.
  destruct (pinboard w) as [l|] eqn:Hl.
  - rewrite (updateBadgeCount_Some _ _ Hl). intros l' Hl'. cbn in *.
    rewrite Hl in Hl'. by injection Hl' as <-.
  - rewrite (updateBadgeCount_None _ Hl). intros l' Hl'. cbn in Hl'. congruence.
Qed.

Lemma setLocalBookmarks_badge a w :
  badge_shows_stored (EventPage.setLocalBookmarks a w).1.
Proof. apply updateBadgeCount_badge. Qed.

Lemma updateData_badge R w :
  badge_shows_stored w -> badge_shows_stored (EventPage.updateData R w).1.
Proof.
  intros Hw. unfold EventPage.updateData, await. rewrite shouldFetchNew_eq.
  destruct (posts_update R) as [t|].
  2: { cbn. by apply (badge_shows_stored_same w). }
  destruct (decide (pinboardUpdated w <> Some t)).
  2: { cbn. by apply (badge_shows_stored_same w). }
  unfold EventPage.fetchNew. destruct (posts_all R) as [data|].
  - cbn [alloc fst]. apply setLocalBookmarks_badge.
  - cbn. by apply (badge_shows_stored_same w).
Qed.

Lemma markBookmarksRead_badge R B S w :
  badge_shows_stored w -> badge_shows_stored (EventPage.markBookmarksRead R B S w).1.
Proof.
  intros Hw.
  destruct (mapM (request_of (heap w)) S) as [requests|] eqn:Ereq.
  2: { by destruct (markBookmarksRead_unallocated R B S w Ereq) as [-> _]. }
  pose proof (request_of_allocated _ _ _ Ereq) as HS.
  destruct (all_responses R (add_requests (values (heap w) S))) as [codes|] eqn:Ec.
  2: { destruct (markBookmarksRead_no_answer R B S w HS Ec) as [-> _].
       by apply (badge_shows_stored_same w). }
  rewrite (EventPage_markBookmarksRead_run R B S w codes HS Ec). cbn zeta.
  destruct (markAllValues _ _).2; cbn [fst].
  - apply setLocalBookmarks_badge.
  - by apply (badge_shows_stored_same w).
Qed.

Lemma handleClick_badge R w :
  badge_shows_stored w -> badge_shows_stored (EventPage.handleClick R w).1.
Proof.
  intros Hw. pose proof (updateData_badge R w Hw) as H1.
  unfold EventPage.handleClick, await.
  destruct (EventPage.updateData R w) as [w1 [[]| |]]; cbn [fst] in *; try done.
  unfold EventPage.getLocalBookmarks.
  destruct (pinboard w1) as [l|] eqn:Hl; [|done]. cbn [alloc].
  destruct (decide _).
  { cbn [fst]. by apply (badge_shows_stored_same w1). }
  destruct (mapM _ _) as [ts|].
  - apply markBookmarksRead_badge. by apply (badge_shows_stored_same w1).
  - cbn [fst]. by apply (badge_shows_stored_same w1).
Qed.

Lemma dispatch_badge e w :
  badge_shows_stored w -> badge_shows_stored (dispatch e w).
Proof.
  intros Hw. destruct e as [R|name R]; cbn.
  - by apply handleClick_badge.
  - unfold EventPage.onAlarm. destruct (decide _); [|done].
    by apply updateData_badge.
Qed.

(** X15. Every [set] of the list is followed by the badge update, and nothing
    else writes the list or the badge. So in every run of the page (the badge
    update of [init], then clicks and alarms in any order and with any
    answers of the service, one listener after the other) the badge shows
    the stored list whenever a list is stored: its text is the number of
    stored unread bookmarks, or empty when there is none, and its colour is
    "#000". *)
Theorem page_run_badge (events : list Event) (w : World) :
  badge_shows_stored (page_run events w).
Proof.
  unfold page_run.
  assert (forall x, badge_shows_stored x ->
            badge_shows_stored (foldl (fun w e => dispatch e w) x events)) as H.
  { induction events as [|e events IH]; intros x Hx; [done|].
    cbn. apply IH. by apply dispatch_badge. }
  apply H. apply updateBadgeCount_badge.
Qed.

(** ** The storage *)

(** X16. What [setLocalBookmarks] stores is what [getLocalBookmarks] reads:
    the array read next holds the values of the array stored, in their order,
    in objects of its own, none of which is an object of the array stored. *)
Theorem setLocalBookmarks_getLocalBookmarks (a : list ref) (w : World) :
  allocated (heap w) a ->
  let w1 := (EventPage.setLocalBookmarks a w).1 in
  exists w2 b,
    EventPage.getLocalBookmarks w1 = (w2, Fulfilled (Some b)) /\
    values (heap w2) b = values (heap w) a /\
    length b = length a /\
    (forall r, r ∈ b -> r ∉ a) /\
    values (heap w2) a = values (heap w) a.
Proof.
  intros Ha w1.
  destruct (setLocalBookmarks_frame a w) as (Hp & _ & _ & _ & _ & _ & [k Hk]).
  fold w1 in Hp, Hk.
  rewrite (getLocalBookmarks_Some _ _ Hp). eexists _, _.
  split; [reflexivity|]. cbn [heap with_heap]. split; [apply values_alloc|].
  split; [by rewrite length_seq, length_values|]. split.
  - intros r Hr Hin. apply elem_of_seq in Hr as [Hr _].
    unfold allocated in Ha. rewrite Forall_forall in Ha. specialize (Ha r Hin).
    rewrite Hk, length_app in Hr. lia.
  - rewrite Hk, <- app_assoc. unfold values.
    apply list_omap_ext, Forall_Forall2_diag.
    eapply Forall_impl; [exact Ha|]. intros r Hr. cbn beta.
    by rewrite lookup_app_l.
Qed.

Lemma setLocalBookmarks_getLocalBookmarks_witness :
  let w := mkWorld fifteen_bookmarks None None [] None None [] [] [] in
  let w1 := (EventPage.setLocalBookmarks [3; 1] w).1 in
  exists w2 b,
    EventPage.getLocalBookmarks w1 = (w2, Fulfilled (Some b)) /\
    values (heap w2) b = values (heap w) [3; 1] /\
    length b = length [3; 1] /\
    (forall r, r ∈ b -> r ∉ [3; 1]) /\
    values (heap w2) [3; 1] = values (heap w) [3; 1].
Proof.
  intros w.
  apply (setLocalBookmarks_getLocalBookmarks [3; 1] w).
  unfold allocated. repeat constructor; simpl; lia.
Defined.

(** X17. A batch with nothing to mark sends nothing and is fulfilled, in both
    revisions; it still writes the key "pinboard", with the values of
    [bookmarks] as they are. *)
Theorem markBookmarksRead_nothing_to_mark (R : Remote) (B : list ref) (w : World) :
  let r := EventPage.markBookmarksRead R B [] w in
  r.2 = Fulfilled tt /\
  Part000.markBookmarksRead R B [] w = r /\
  fetches r.1 = fetches w /\
  pinboard r.1 = Some (values (heap w) B) /\
  setLog r.1 = setLog w ++ [SetPinboard (values (heap w) B)].
Proof.
  intros r. unfold r.
  assert (allocated (heap w) []) as HS by constructor.
  assert (all_responses R (add_requests (values (heap w) [])) = Some []) as Ec
    by reflexivity.
  rewrite (EventPage_markBookmarksRead_run R B [] w [] HS Ec).
  rewrite (Part000_markBookmarksRead_run R B [] w [] HS Ec).
  rewrite values_nil. cbn [fmap list_fmap markAllValues fst snd].
  split; [reflexivity|]. split; [reflexivity|].
  match goal with
  | |- context [EventPage.setLocalBookmarks ?a ?x] =>
      destruct (setLocalBookmarks_frame a x) as (-> & _ & -> & _ & -> & _)
  end.
  cbn [heap with_heap setLog fetch fetches add_requests fmap list_fmap].
  pose proof (values_clone_refs (heap w) B []) as Hv. cbn in Hv.
  rewrite Hv, app_nil_r. done.
Qed.
